(** * Sure.Financial frontend: a shallow embedding of the statement-fetching,
    caching, polling and upload code, with the scoring contract of the parser core.

    Sources: src/unnamed/part_002 (lib/statements.ts), src/frontend/lib/api.ts,
    src/frontend/components/FileUpload.tsx, src/unnamed/part_000
    (components/ResultsDisplay.tsx). *)

From Stdlib Require Import String Ascii List ZArith QArith Qround Qminmax Lia Bool.
Import ListNotations.
Open Scope string_scope.
Set Warnings "-register-all".

(* ------------------------------------------------------------------ *)
(** ** JavaScript values *)

(** The runtime values the code manipulates: parsed JSON plus [undefined]
    and [NaN].  Numbers are kept as rationals. *)
Inductive jval : Type :=
| JUndef
| JNull
| JBool (b : bool)
| JNum (q : Q)
| JNaN
| JStr (s : string)
| JArr (elems : list jval)
| JObj (fields : list (string * jval)).

(** The parts of the JavaScript engine the code relies on but which are
    not defined by this program: [Number.prototype.toString], the string to
    number conversion of [Number(s)], and [Date.prototype.toISOString] on an
    epoch time in milliseconds. *)
Record runtime : Type := {
  rt_num_str : Q -> string;
  rt_str_to_number : string -> jval;
  rt_iso : Z -> string
}.

(** JavaScript truthiness. *)
Definition truthy (v : jval) : bool :=
  match v with
  | JUndef | JNull | JNaN => false
  | JBool b => b
  | JNum q => negb (Qeq_bool q 0)
  | JStr s => negb (String.eqb s "")
  | JArr _ | JObj _ => true
  end.

(** [a || b] *)
Definition js_or (a b : jval) : jval := if truthy a then a else b.

(** [a ?? b] *)
Definition js_coalesce (a b : jval) : jval :=
  match a with
  | JUndef | JNull => b
  | _ => a
  end.

Fixpoint assoc_get (k : string) (fs : list (string * jval)) : jval :=
  match fs with
  | [] => JUndef
  | (k', v) :: fs' => if String.eqb k k' then v else assoc_get k fs'
  end.

(** Property read [v.k] / [v?.k].  Every read in the modelled code is either
    optional ([?.]) or on a value known to be truthy, so a read on a value
    that is not an object yields [undefined] (none of the keys read is a
    property of strings or arrays). *)
Definition get (v : jval) (k : string) : jval :=
  match v with
  | JObj fs => assoc_get k fs
  | _ => JUndef
  end.

(** [Object.keys(v).length > 0] for a truthy [v]. *)
Definition has_keys (v : jval) : bool :=
  match v with
  | JObj fs => negb (match fs with [] => true | _ => false end)
  | JArr l => negb (match l with [] => true | _ => false end)
  | JStr s => negb (String.eqb s "")
  | _ => false
  end.

Section Conversions.
Variable rt : runtime.

(** [String(v)] *)
Fixpoint js_String (v : jval) : string :=
  match v with
  | JUndef => "undefined"
  | JNull => "null"
  | JBool b => if b then "true" else "false"
  | JNum q => rt_num_str rt q
  | JNaN => "NaN"
  | JStr s => s
  | JArr l =>
      let fix elems (l : list jval) : list string :=
        match l with
        | [] => []
        | x :: l' =>
            (match x with JUndef | JNull => "" | _ => js_String x end) :: elems l'
        end in
      String.concat "," (elems l)
  | JObj _ => "[object Object]"
  end.

(** [Number(v)] *)
Definition js_Number (v : jval) : jval :=
  match v with
  | JUndef => JNaN
  | JNull => JNum 0
  | JBool b => JNum (if b then 1 else 0)
  | JNum q => JNum q
  | JNaN => JNaN
  | JStr s => rt_str_to_number rt s
  | JArr _ => rt_str_to_number rt (js_String v)
  | JObj _ => JNaN
  end.

End Conversions.

(** *** A sample runtime for concrete runs *)

(** Decimal digits of a non-negative integer; [fuel] bounds the number of
    digits. *)
Fixpoint dec_digits (fuel : nat) (n : Z) (acc : string) : string :=
  match fuel with
  | O => acc
  | S f =>
      let acc' := String (Ascii.ascii_of_nat (48 + Z.to_nat (n mod 10))) acc in
      if (n / 10 =? 0)%Z then acc' else dec_digits f (n / 10) acc'
  end.

Definition Z_to_dec (z : Z) : string :=
  let fuel := S (Z.to_nat (Z.log2 (Z.abs z))) in
  if (z <? 0)%Z then "-" ++ dec_digits fuel (- z) "" else dec_digits fuel z "".

(** [Z_to_dec] left-padded with zeros to [w] characters. *)
Definition pad (w : nat) (z : Z) : string :=
  let s := Z_to_dec z in
  let fix zeros (k : nat) : string := match k with O => "" | S k' => "0" ++ zeros k' end in
  zeros (w - String.length s)%nat ++ s.

(** Year, month and day of a count of days since 1970-01-01 (proleptic
    Gregorian calendar). *)
Definition civil_from_days (days : Z) : Z * Z * Z :=
  let z := (days + 719468)%Z in
  let era := (z / 146097)%Z in
  let doe := (z - era * 146097)%Z in
  let yoe := ((doe - doe / 1460 + doe / 36524 - doe / 146096) / 365)%Z in
  let doy := (doe - (365 * yoe + yoe / 4 - yoe / 100))%Z in
  let mp := ((5 * doy + 2) / 153)%Z in
  let d := (doy - (153 * mp + 2) / 5 + 1)%Z in
  let m := if (mp <? 10)%Z then (mp + 3)%Z else (mp - 9)%Z in
  let y := (yoe + era * 400)%Z in
  ((if (m <=? 2)%Z then y + 1 else y)%Z, m, d).

(** [new Date(ms).toISOString()] for years 0 to 9999. *)
Definition iso_of_ms (ms : Z) : string :=
  let days := (ms / 86400000)%Z in
  let t := (ms mod 86400000)%Z in
  let '(y, m, d) := civil_from_days days in
  pad 4 y ++ "-" ++ pad 2 m ++ "-" ++ pad 2 d ++ "T" ++
  pad 2 (t / 3600000) ++ ":" ++ pad 2 ((t / 60000) mod 60) ++ ":" ++
  pad 2 ((t / 1000) mod 60) ++ "." ++ pad 3 (t mod 1000) ++ "Z".

(** A concrete runtime for the concrete runs of this file: integral numbers
    print in decimal as in JavaScript (other numbers, never printed by these
    runs, print as numerator/denominator), [Number(s)] is [NaN] for every
    string (these runs convert no string to a number), and [toISOString] is
    [iso_of_ms]. *)
Definition sample_runtime : runtime := {|
  rt_num_str := fun q => if (Zpos (Qden q) =? 1)%Z then Z_to_dec (Qnum q)
                         else Z_to_dec (Qnum q) ++ "/" ++ Z_to_dec (Zpos (Qden q));
  rt_str_to_number := fun _ => JNaN;
  rt_iso := iso_of_ms
|}.

Example iso_of_ms_epoch : iso_of_ms 0 = "1970-01-01T00:00:00.000Z".
Proof. reflexivity. Qed.

Example iso_of_ms_2024 : iso_of_ms 1723766400123 = "2024-08-16T00:00:00.123Z".
Proof. vm_compute. reflexivity. Qed.

(* ------------------------------------------------------------------ *)
(** ** ParseResult *)

(** The fields of a [ParseResult] object read or written by the modelled
    code; an absent property is [JUndef].  The TypeScript interface does not
    constrain the runtime values ([mapDbToParseResult] ends in [as ParseResult]),
    so every field but [job_id] is a [jval]. *)
Record ParseResult : Type := mkParseResult {
  job_id : string;
  status : jval;
  card_issuer : jval;
  card_number : jval;
  statement_date : jval;
  payment_due_date : jval;
  total_amount_due : jval;
  confidence_scores : jval;
  created_at : jval;
  transactions : jval
}.

(** A [{ value, confidence }] field literal. *)
Definition field (v : string) (c : Q) : jval :=
  JObj [("value", JStr v); ("confidence", JNum c)].

(** [{ value: String(x) }]: the field built by the nested-shape branch. *)
Definition value_only (s : string) : jval := JObj [("value", JStr s)].

Section Mapping.
Variable rt : runtime.

(** [mapDbToParseResult(doc)], part_002 lines 73-115.  [now_iso] is
    [new Date().toISOString()] at the time of the call. *)
Definition mapDbToParseResult (now_iso : string) (doc : jval) : ParseResult :=
  let rd := js_or (get doc "raw_data") (JObj []) in
  if has_keys rd then
    {| job_id := js_String rt (js_or (get doc "_id") (js_or (get rd "job_id")
                   (js_or (get doc "job_id") (JStr ""))));
       status := js_or (get rd "status") (JStr "completed");
       card_issuer := js_or (get rd "card_issuer") (JStr "Unknown");
       card_number := get rd "card_number";
       statement_date := get rd "statement_date";
       payment_due_date := get rd "payment_due_date";
       total_amount_due := get rd "total_amount_due";
       confidence_scores := get rd "confidence_scores";
       created_at := js_or (get rd "created_at")
                       (js_or (get doc "created_at") (JStr now_iso));
       transactions := JUndef |}
  else
    let d := js_or (get doc "data") (JObj []) in
    let cs := js_or (get doc "confidence_scores") (JObj []) in
    let cardNumberVal :=
      if truthy (get d "card_number") then
        match get d "card_number" with
        | JStr s => JStr s
        | v => JStr (js_String rt v)
        end
      else get doc "card_number" in
    let statementDateVal :=
      js_or (get (get d "statement_period") "end_date")
        (js_or (get (get d "statement_date") "formatted") (get d "statement_date")) in
    let paymentDueVal :=
      js_or (get (get d "payment_due_date") "formatted")
        (js_or (get (get d "payment_due_date") "raw") (get doc "due_date")) in
    let totalAmountVal :=
      js_or (get (get d "total_amount_due") "raw")
        (js_or (get (get d "total_amount_due") "amount") (get doc "total_amount_due")) in
    let overall :=
      js_coalesce (get cs "overall")
        (js_coalesce (get cs "average") (get doc "overall_confidence")) in
    let opt_field (v : jval) :=
      if truthy v then value_only (js_String rt v) else JUndef in
    {| job_id := js_String rt (js_or (get doc "_id") (js_or (get doc "job_id") (JStr "")));
       status := js_or (get doc "status") (JStr "completed");
       card_issuer := js_or (get d "card_issuer")
                        (js_or (get doc "card_issuer")
                           (js_or (get doc "issuer") (JStr "Unknown")));
       card_number := opt_field cardNumberVal;
       statement_date := opt_field statementDateVal;
       payment_due_date := opt_field paymentDueVal;
       total_amount_due := opt_field totalAmountVal;
       confidence_scores :=
         match overall with
         | JUndef => JUndef
         | _ => JObj [("overall", js_Number rt overall)]
         end;
       created_at := js_or (get doc "created_at") (JStr now_iso);
       transactions := JUndef |}.

End Mapping.

(* ------------------------------------------------------------------ *)
(** ** The fallback data and the statements cache (part_002) *)

(** [MOCK_STATEMENTS], part_002 lines 7-63.  The array is built once, when
    the module is loaded, at epoch time [load_ms]; [created_at] of entry
    [k+1] is [new Date(load_ms - k * 86400000).toISOString()]. *)
Definition MOCK_STATEMENTS (rt : runtime) (load_ms : Z) : list ParseResult :=
  let mk id issuer cn cnc sd sdc tad tadc pdd pddc ov days :=
    {| job_id := id; status := JStr "completed"; card_issuer := JStr issuer;
       card_number := field cn cnc; statement_date := field sd sdc;
       total_amount_due := field tad tadc; payment_due_date := field pdd pddc;
       confidence_scores := JObj [("overall", JNum ov)];
       created_at := JStr (rt_iso rt (load_ms - days * 86400000));
       transactions := JUndef |} in
  [ mk "job_1" "Axis Bank" "9410" 95 "2024-08-16" 90 "INR 40,491.00" 92 "2024-10-05" 90 94 0%Z;
    mk "job_2" "HDFC Bank" "4567" 98 "2024-07-20" 95 "INR 12,350.00" 96 "2024-08-15" 97 97 1%Z;
    mk "job_3" "ICICI Bank" "7890" 92 "2024-09-01" 93 "INR 8,745.50" 91 "2024-09-25" 94 92 2%Z;
    mk "job_4" "SBI Card" "1234" 96 "2024-08-05" 97 "INR 22,680.75" 95 "2024-08-28" 98 96 3%Z;
    mk "job_5" "Axis Bank" "5678" 94 "2024-07-10" 91 "INR 15,320.25" 93 "2024-08-05" 92 93 4%Z ].

(** [CACHE_TTL] in milliseconds. *)
Definition CACHE_TTL : Z := 10000.

(** The module state.  JavaScript arrays are shared by reference: the heap
    holds every array the module has handed out, [statementsCache.data] is a
    reference into it (or [null]), and location [0] is the [MOCK_STATEMENTS]
    array itself, which the cache may alias. *)
Record store : Type := mkStore {
  heap : list (list ParseResult);
  cache_data : option nat;
  cache_ts : Z
}.

Definition MOCK_LOC : nat := 0.

(** The state right after the module is loaded. *)
Definition init_store (rt : runtime) (load_ms : Z) : store :=
  {| heap := [MOCK_STATEMENTS rt load_ms]; cache_data := None; cache_ts := 0 |}.

Definition read (s : store) (loc : nat) : list ParseResult := nth loc (heap s) [].

Fixpoint replace_nth {A} (i : nat) (x : A) (l : list A) : list A :=
  match l, i with
  | [], _ => []
  | _ :: l', O => x :: l'
  | y :: l', S i' => y :: replace_nth i' x l'
  end.

(** [arr = ...] on the array at [loc]: every alias sees the change. *)
Definition write (s : store) (loc : nat) (l : list ParseResult) : store :=
  {| heap := replace_nth loc l (heap s); cache_data := cache_data s; cache_ts := cache_ts s |}.

(** A fresh array. *)
Definition alloc (s : store) (l : list ParseResult) : store * nat :=
  ({| heap := heap s ++ [l]; cache_data := cache_data s; cache_ts := cache_ts s |},
   length (heap s)).

Definition set_cache (s : store) (d : option nat) (ts : Z) : store :=
  {| heap := heap s; cache_data := d; cache_ts := ts |}.

(** The outcome of [axios.get]: the parsed response body or an error. *)
Inductive http_response : Type :=
| HttpOk (data : jval)
| HttpErr (message : string).

(** A settled promise. *)
Inductive promise (A : Type) : Type :=
| Resolved (a : A)
| Rejected (message : string).
Arguments Resolved {A} a.
Arguments Rejected {A} message.

(** [getAllSavedStatements(forceRefresh)], part_002 lines 120-140, called at
    [Date.now() = now].  [resp] is what the request would return; the boolean
    of the result says whether the request was issued.  The promise resolves
    with a reference to the returned array. *)
Definition getAllSavedStatements (rt : runtime) (forceRefresh : bool) (now : Z)
    (resp : http_response) (s : store) : store * bool * promise nat :=
  match cache_data s with
  | Some loc =>
      if negb forceRefresh && (now - cache_ts s <? CACHE_TTL)%Z
      then (s, false, Resolved loc)
      else
        match resp with
        | HttpOk data =>
            let docs := match data with JArr l => l | _ => [] end in
            let mapped := map (mapDbToParseResult rt (rt_iso rt now)) docs in
            let (s1, loc') := alloc s mapped in
            (set_cache s1 (Some loc') now, true, Resolved loc')
        | HttpErr _ => (set_cache s (Some MOCK_LOC) now, true, Resolved MOCK_LOC)
        end
  | None =>
      match resp with
      | HttpOk data =>
          let docs := match data with JArr l => l | _ => [] end in
          let mapped := map (mapDbToParseResult rt (rt_iso rt now)) docs in
          let (s1, loc') := alloc s mapped in
          (set_cache s1 (Some loc') now, true, Resolved loc')
      | HttpErr _ => (set_cache s (Some MOCK_LOC) now, true, Resolved MOCK_LOC)
      end
  end.

Fixpoint findIndex {A} (p : A -> bool) (l : list A) : option nat :=
  match l with
  | [] => None
  | x :: l' => if p x then Some O else option_map S (findIndex p l')
  end.

Definition same_job (st : ParseResult) (s : ParseResult) : bool :=
  String.eqb (job_id s) (job_id st).

(** The list update of [addStatementToCache] on an existing array:
    replace at [findIndex] or [unshift]. *)
Definition upsert (st : ParseResult) (l : list ParseResult) : list ParseResult :=
  match findIndex (same_job st) l with
  | Some i => replace_nth i st l
  | None => st :: l
  end.

(** [addStatementToCache(statement)], part_002 lines 171-184, at [Date.now() = now]. *)
Definition addStatementToCache (st : ParseResult) (now : Z) (s : store) : store :=
  match cache_data s with
  | None =>
      let (s1, loc) := alloc s [st] in set_cache s1 (Some loc) now
  | Some loc =>
      set_cache (write s loc (upsert st (read s loc))) (Some loc) now
  end.

(** [clearStatementsCache()], part_002 lines 188-191. *)
Definition clearStatementsCache (s : store) : store := set_cache s None 0.

(* ------------------------------------------------------------------ *)
(** ** Polling a parsing job (src/frontend/lib/api.ts) *)

(** A JavaScript [Error] built by [new Error(arg)]. *)
Inductive js_error : Type :=
| JsError (arg : jval).

Definition polling_timeout : js_error :=
  JsError (JStr "Polling timeout: Job took too long to complete").

(** A [JobStatusResponse]: its [status] and its optional [result]. *)
Record JobStatusResponse : Type := mkJobStatus {
  jsr_status : string;
  jsr_result : jval
}.

(** What the [k]-th call of [getJobStatus(jobId)] does: resolve with a
    status, or throw (for instance ["Failed to get job status: ..."]). *)
Inductive status_response : Type :=
| StatusOk (st : JobStatusResponse)
| StatusErr (e : js_error).

(** How the [try] block of one loop iteration ends. *)
Inductive body_result : Type :=
| BReturn (r : jval)
| BThrow (e : js_error)
| BWait.

(** The [try] block of [pollJobStatus] up to its [await] of the delay
    (api.ts lines 77-85). *)
Definition poll_body (r : status_response) : body_result :=
  match r with
  | StatusErr e => BThrow e
  | StatusOk st =>
      if String.eqb (jsr_status st) "completed" && truthy (jsr_result st)
      then BReturn (jsr_result st)
      else if String.eqb (jsr_status st) "failed"
      then BThrow (JsError (js_or (get (jsr_result st) "error") (JStr "Parsing failed")))
      else BWait
  end.

Inductive poll_event : Type :=
| PollCheck (k : nat)      (* the [k]-th call of [getJobStatus] *)
| PollSleep (ms : Q).      (* [await new Promise(resolve => setTimeout(resolve, ms))] *)

Inductive poll_outcome : Type :=
| PollReturned (r : jval)
| PollThrown (e : js_error)
| PollOutOfFuel.

(** The [while] loop of [pollJobStatus] (api.ts lines 75-102), run for at most
    [fuel] iterations from the loop state [attempts], [delay], and [k] calls
    of [getJobStatus] made so far.  Returns the trace and the outcome. *)
Fixpoint poll_loop (resp : nat -> status_response) (maxAttempts : Z) (fuel : nat)
    (attempts : Z) (delay : Q) (k : nat) : list poll_event * poll_outcome :=
  match fuel with
  | O => ([], PollOutOfFuel)
  | S fuel' =>
      if (attempts <? maxAttempts)%Z then
        match poll_body (resp k) with
        | BReturn r => ([PollCheck k], PollReturned r)
        | BWait =>
            let '(tr, o) := poll_loop resp maxAttempts fuel' (attempts + 1)
                              (Qmin (delay * (3 # 2)) 5000) (S k) in
            (PollCheck k :: PollSleep delay :: tr, o)
        | BThrow e =>
            if (attempts =? maxAttempts - 1)%Z then ([PollCheck k], PollThrown e)
            else
              let '(tr, o) := poll_loop resp maxAttempts fuel' (attempts + 1) delay (S k) in
              (PollCheck k :: PollSleep delay :: tr, o)
        end
      else ([], PollThrown polling_timeout)
  end.

(** [pollJobStatus(jobId, maxAttempts, initialDelay)]; one loop iteration
    more than the attempt budget is always enough fuel (see
    [pollJobStatus_outcomes]). *)
Definition pollJobStatus (resp : nat -> status_response) (maxAttempts : Z)
    (initialDelay : Q) : list poll_event * poll_outcome :=
  poll_loop resp maxAttempts (S (Z.to_nat maxAttempts)) 0 initialDelay 0.

Fixpoint count_checks (tr : list poll_event) : nat :=
  match tr with
  | [] => O
  | PollCheck _ :: tr' => S (count_checks tr')
  | PollSleep _ :: tr' => count_checks tr'
  end.

(* ------------------------------------------------------------------ *)
(** ** Uploading (src/frontend/components/FileUpload.tsx, src/frontend/lib/api.ts) *)

(** A browser [File]: its MIME [type] and its [size] in bytes. *)
Record File : Type := mkFile {
  file_name : string;
  file_type : string;
  file_size : Z
}.

(** How [uploadStatement(file)] settles. *)
Inductive upload_outcome : Type :=
| UploadOk (result : jval)
| UploadFailed (message : string).

(** The observable effects of [onDrop]: the three callbacks and the call of
    [uploadStatement], which sends the file to the parsing API. *)
Inductive drop_event : Type :=
| OnUploadError (message : string)
| OnUploadStart
| UploadRequest (f : File)
| OnUploadComplete (result : jval).

(** [onDrop(acceptedFiles)], FileUpload.tsx lines 21-49. *)
Definition onDrop (up : upload_outcome) (acceptedFiles : list File) : list drop_event :=
  match acceptedFiles with
  | [] => [OnUploadError "Please select a valid PDF file"]
  | file :: _ =>
      if negb (String.eqb (file_type file) "application/pdf")
      then [OnUploadError "Only PDF files are supported"]
      else if (10 * 1024 * 1024 <? file_size file)%Z
      then [OnUploadError "File size must be less than 10MB"]
      else
        OnUploadStart :: UploadRequest file ::
        match up with
        | UploadOk r => [OnUploadComplete r]
        | UploadFailed m =>
            [OnUploadError (if String.eqb m "" then "Failed to upload file" else m)]
        end
  end.

Definition valid_upload (f : File) : Prop :=
  file_type f = "application/pdf" /\ (file_size f <= 10 * 1024 * 1024)%Z.

(** A multipart [POST] request. *)
Record http_request : Type := mkRequest {
  req_url : string;
  req_form : list (string * File)
}.

(** The request [uploadStatement(file)] sends first (api.ts lines 16-29);
    [base] is [API_BASE_URL]. *)
Definition uploadStatement_request (base : string) (f : File) : http_request :=
  {| req_url := base ++ "/api/v1/parse/upload"; req_form := [("file", f)] |}.

(** The requests [uploadBatchStatements(files)] sends (api.ts lines 124-139). *)
Definition uploadBatchStatements_requests (base : string) (files : list File)
    : list http_request :=
  [{| req_url := base ++ "/api/v1/parse/batch";
      req_form := map (fun f => ("files", f)) files |}].

(* ------------------------------------------------------------------ *)
(** ** Rendering transactions (src/unnamed/part_000, the details tab) *)

(** A table row: its React [key] and its three cells. *)
Record tx_row : Type := mkRow {
  row_key : nat;
  row_date : jval;
  row_merchant : jval;
  row_amount : jval
}.

Inductive tx_view : Type :=
| TxTable (rows : list tx_row)
| TxNone      (* "No transactions found in this statement" *)
| TxThrows.   (* the render throws *)

(** [array.map((t, idx) => ...)] *)
Fixpoint map_idx {A B} (f : nat -> A -> B) (i : nat) (l : list A) : list B :=
  match l with
  | [] => []
  | x :: l' => f i x :: map_idx f (S i) l'
  end.

(** [Some] of all the values when none is [None]. *)
Fixpoint all_some {A} (l : list (option A)) : option (list A) :=
  match l with
  | [] => Some []
  | None :: _ => None
  | Some x :: l' => option_map (cons x) (all_some l')
  end.

(** [v.length] of a truthy value; values without the property give
    [undefined]. *)
Definition js_length (v : jval) : jval :=
  match v with
  | JArr l => JNum (inject_Z (Z.of_nat (length l)))
  | JStr s => JNum (inject_Z (Z.of_nat (String.length s)))
  | JObj _ => get v "length"
  | _ => JUndef
  end.

(** [v > 0]: [v] is converted with [Number]. *)
Definition js_gt0 (rt : runtime) (v : jval) : bool :=
  match js_Number rt v with
  | JNum p => negb (Qle_bool p 0)
  | _ => false
  end.

(** Whether React renders [v] as a child: strings and numbers are shown,
    [null], [undefined] and booleans render nothing, an array renders its
    items, and a plain object throws ("Objects are not valid as a React
    child"). *)
Fixpoint react_child_ok (v : jval) : bool :=
  match v with
  | JObj _ => false
  | JArr l =>
      (fix all (l : list jval) : bool :=
         match l with
         | [] => true
         | x :: l' => react_child_ok x && all l'
         end) l
  | _ => true
  end.

(** The row of transaction [t] at index [idx]; [None] when rendering it
    throws: [t.date] on [null] or [undefined] is a TypeError, and a cell
    holding an object makes React throw. *)
Definition tx_row_of (idx : nat) (t : jval) : option tx_row :=
  match t with
  | JUndef | JNull => None
  | _ =>
      let d := get t "date" in
      let m := get t "merchant" in
      let a := get t "amount" in
      if react_child_ok d && react_child_ok m && react_child_ok a
      then Some {| row_key := idx; row_date := d; row_merchant := m; row_amount := a |}
      else None
  end.

(** The details tab of [ResultsDisplay] (part_000 lines 321-347):
    [result.transactions && result.transactions.length > 0 ? ... : ...].
    A value other than an array has no [map] method, so calling it throws. *)
Definition render_transactions (rt : runtime) (result : ParseResult) : tx_view :=
  let txs := transactions result in
  if truthy txs && js_gt0 rt (js_length txs) then
    match txs with
    | JArr ts =>
        match all_some (map_idx tx_row_of 0 ts) with
        | Some rows => TxTable rows
        | None => TxThrows
        end
    | _ => TxThrows
    end
  else TxNone.

(** A transaction whose row renders. *)
Definition tx_ok (t : jval) : bool :=
  match tx_row_of 0 t with Some _ => true | None => false end.

(* ------------------------------------------------------------------ *)
(** ** Confidence scoring of the parser core *)

(** The parsing core (the Python backend's confidence scorer and result
    assembler) is not part of src/; only the frontend that consumes its
    results is.  The scorer below follows the spec, sections 3, 4.5 and 4.6. *)
Module Scoring.

Inductive issuer : Type :=
| KOTAK | HDFC | ICICI | AMEX | CAPITAL_ONE | UNKNOWN.

(** A [Field]: a value ([None] is null) and its confidence. *)
Record fieldc : Type := mkField {
  fvalue : option string;
  fconf : Q
}.

(** The part of a [ParseResult] the overall confidence is computed from. *)
Record core_result : Type := mkCore {
  issuer_of : issuer;
  issuer_conf : Q;
  engine_quality : Q;
  card_number_f : fieldc;
  statement_date_f : fieldc;
  payment_due_date_f : fieldc;
  total_amount_due_f : fieldc;
  minimum_amount_due_f : option fieldc;
  previous_balance_f : option fieldc;
  available_credit_limit_f : option fieldc;
  reward_points_summary_f : option fieldc
}.

(** Per-field weights of the required fields (configurable). *)
Record weights : Type := mkWeights {
  w_card_number : Q;
  w_statement_date : Q;
  w_payment_due_date : Q;
  w_total_amount_due : Q
}.

Definition default_weights : weights := mkWeights 1 1 1 1.

(** Modelled from the spec: the UNKNOWN-issuer ceiling of the overall
    confidence (section 4.5, "e.g. 0.4"). *)
Definition UNKNOWN_ISSUER_CAP : Q := 2 # 5.

(** Modelled from the spec: the ceiling when a required field is absent
    (section 3, "e.g. 0.5"). *)
Definition MISSING_REQUIRED_CAP : Q := 1 # 2.

(** Modelled from the spec: the weighted average over the required fields
    (section 4.5). *)
Definition weighted_average (w : weights) (r : core_result) : Q :=
  (w_card_number w * fconf (card_number_f r)
   + w_statement_date w * fconf (statement_date_f r)
   + w_payment_due_date w * fconf (payment_due_date_f r)
   + w_total_amount_due w * fconf (total_amount_due_f r))
  / (w_card_number w + w_statement_date w + w_payment_due_date w + w_total_amount_due w).

Definition is_null (f : fieldc) : bool :=
  match fvalue f with None => true | Some _ => false end.

Definition required_missing (r : core_result) : bool :=
  is_null (card_number_f r) || is_null (statement_date_f r)
  || is_null (payment_due_date_f r) || is_null (total_amount_due_f r).

(** Modelled from the spec: [confidence_scores.overall] (sections 3, 4.5,
    4.6): the weighted average of the required fields, capped by the engine
    quality, by the issuer-classification confidence (a fixed low ceiling for
    UNKNOWN) and, when a required field is absent, by a fixed ceiling. *)
Definition overall (w : weights) (r : core_result) : Q :=
  let c := Qmin (weighted_average w r) (engine_quality r) in
  let c := Qmin c (match issuer_of r with
                   | UNKNOWN => UNKNOWN_ISSUER_CAP
                   | _ => issuer_conf r
                   end) in
  if required_missing r then Qmin c MISSING_REQUIRED_CAP else c.

Inductive optional_field : Type :=
| MinimumAmountDue | PreviousBalance | AvailableCreditLimit | RewardPointsSummary.

(** The same result with optional field [o] set to [f]. *)
Definition set_optional (o : optional_field) (f : option fieldc) (r : core_result)
    : core_result :=
  match o with
  | MinimumAmountDue =>
      mkCore (issuer_of r) (issuer_conf r) (engine_quality r) (card_number_f r)
        (statement_date_f r) (payment_due_date_f r) (total_amount_due_f r)
        f (previous_balance_f r) (available_credit_limit_f r) (reward_points_summary_f r)
  | PreviousBalance =>
      mkCore (issuer_of r) (issuer_conf r) (engine_quality r) (card_number_f r)
        (statement_date_f r) (payment_due_date_f r) (total_amount_due_f r)
        (minimum_amount_due_f r) f (available_credit_limit_f r) (reward_points_summary_f r)
  | AvailableCreditLimit =>
      mkCore (issuer_of r) (issuer_conf r) (engine_quality r) (card_number_f r)
        (statement_date_f r) (payment_due_date_f r) (total_amount_due_f r)
        (minimum_amount_due_f r) (previous_balance_f r) f (reward_points_summary_f r)
  | RewardPointsSummary =>
      mkCore (issuer_of r) (issuer_conf r) (engine_quality r) (card_number_f r)
        (statement_date_f r) (payment_due_date_f r) (total_amount_due_f r)
        (minimum_amount_due_f r) (previous_balance_f r) (available_credit_limit_f r) f
  end.

End Scoring.

(* ------------------------------------------------------------------ *)
(** ** Text helpers *)

(** [/\d/]: an ASCII digit. *)
Definition is_digit (c : ascii) : bool :=
  let n := nat_of_ascii c in (48 <=? n)%nat && (n <=? 57)%nat.

Fixpoint all_digits (s : string) : bool :=
  match s with
  | EmptyString => true
  | String c s' => is_digit c && all_digits s'
  end.

(* ------------------------------------------------------------------ *)
(** ** The API base URL (src/frontend/lib/api.ts, lines 166-185) *)

(** [s.replace(/\/$/, '')]: removes one final ["/"], if there is one. *)
Fixpoint strip_trailing_slash (s : string) : string :=
  match s with
  | EmptyString => EmptyString
  | String c EmptyString => if Ascii.eqb c "/" then EmptyString else s
  | String c s' => String c (strip_trailing_slash s')
  end.

(** [\d+$] matched at the start of [s]. *)
Definition digits_to_end (s : string) : bool :=
  negb (String.eqb s "") && all_digits s.

(** [/\/api\/v\d+$/] matched at the start of [s]. *)
Definition api_version_at (s : string) : bool :=
  match s with
  | String "/" (String "a" (String "p" (String "i" (String "/" (String "v" rest))))) =>
      digits_to_end rest
  | _ => false
  end.

(** [/\/api\/v\d+$/.test(s)]: a match starting at some position of [s]. *)
Fixpoint api_version_test (s : string) : bool :=
  api_version_at s ||
  match s with
  | EmptyString => false
  | String _ s' => api_version_test s'
  end.

(** [ensureApiV1(url)], api.ts lines 171-176. *)
Definition ensureApiV1 (url : string) : string :=
  let base := strip_trailing_slash url in
  if api_version_test base then base else base ++ "/api/v1".

(* ------------------------------------------------------------------ *)
(** ** The reward points of the summary tab (src/unnamed/part_000, lines 286-310) *)

(** [\d{1,3}], greedy: at most [n] leading digits of [s], and the rest. *)
Fixpoint take_digits (n : nat) (s : string) : string * string :=
  match n, s with
  | S n', String c s' =>
      if is_digit c then let '(d, r) := take_digits n' s' in (String c d, r)
      else (EmptyString, s)
  | _, _ => (EmptyString, s)
  end.

(** [(?:,\d{3})*], greedy. *)
Fixpoint comma_groups (s : string) : string * string :=
  match s with
  | String c (String d1 (String d2 (String d3 s'))) =>
      if Ascii.eqb c "," && is_digit d1 && is_digit d2 && is_digit d3
      then let '(g, r) := comma_groups s' in (String c (String d1 (String d2 (String d3 g))), r)
      else (EmptyString, s)
  | _ => (EmptyString, s)
  end.

(** [\d+], greedy. *)
Fixpoint digit_run (s : string) : string * string :=
  match s with
  | String c s' =>
      if is_digit c then let '(d, r) := digit_run s' in (String c d, r)
      else (EmptyString, s)
  | EmptyString => (EmptyString, EmptyString)
  end.

(** A match of [/\d{1,3}(?:,\d{3})*|\d+/] starting at the first character of
    [s]: the matched text and the rest of [s].  The first alternative is
    tried first; no pattern follows the greedy quantifiers, so their first
    choice is the match. *)
Definition points_match_at (s : string) : option (string * string) :=
  let '(lead, r) := take_digits 3 s in
  if String.eqb lead "" then
    let '(run, r') := digit_run s in
    if String.eqb run "" then None else Some (run, r')
  else
    let '(g, r') := comma_groups r in Some (lead ++ g, r').

(** The matches of the global regular expression from left to right: each
    search starts where the previous match ended, or one character further
    when there is no match at a position.  Every match is non-empty, so
    [String.length s] steps are enough (see [reward_matches]). *)
Fixpoint match_all (fuel : nat) (s : string) : list string :=
  match fuel, s with
  | O, _ | _, EmptyString => []
  | S fuel', String _ s' =>
      match points_match_at s with
      | Some (m, r) => m :: match_all fuel' r
      | None => match_all fuel' s'
      end
  end.

(** [raw.match(/\d{1,3}(?:,\d{3})*|\d+/g)], with [null] (no match) as [[]].
    Text is ASCII here: one character per UTF-16 code unit. *)
Definition reward_matches (raw : string) : list string :=
  match_all (String.length raw) raw.

(** [a[a.length - 1]] of a non-empty array. *)
Fixpoint last_opt {A} (l : list A) : option A :=
  match l with
  | [] => None
  | [x] => Some x
  | _ :: l' => last_opt l'
  end.

(** What the reward-points block shows. *)
Inductive reward_view : Type :=
| RewardPoints (points : string)                   (* "{points} points" *)
| RewardSnippet (text : string) (ellipsis : bool). (* [snippet]; [ellipsis]: followed by U+2026 *)

(** The body of the reward-points block for a truthy string value [raw]
    of [result.reward_points_summary.value], part_000 lines 286-310. *)
Definition reward_block (raw : string) : reward_view :=
  let points := last_opt (reward_matches raw) in
  let snippet :=
    if (140 <? String.length raw)%nat then RewardSnippet (substring 0 140 raw) true
    else RewardSnippet raw false in
  match points with
  | Some p => if String.eqb p "" then snippet else RewardPoints p
  | None => snippet
  end.

(** No ASCII digit in [s]. *)
Fixpoint no_digit (s : string) : bool :=
  match s with
  | EmptyString => true
  | String c s' => negb (is_digit c) && no_digit s'
  end.

(** Only digits and commas in [s]. *)
Fixpoint digits_commas (s : string) : bool :=
  match s with
  | EmptyString => true
  | String c s' => (is_digit c || Ascii.eqb c ",") && digits_commas s'
  end.

(** A points token: digits and commas, first and last characters digits. *)
Definition points_token (m : string) : Prop :=
  digits_commas m = true /\
  (exists c m', m = String c m' /\ is_digit c = true) /\
  (exists q d, m = q ++ String d "" /\ is_digit d = true).

(* ------------------------------------------------------------------ *)
(** ** The summary tab (src/unnamed/part_000, lines 146-284) *)

(** [s.slice(-4)] on a string. *)
Definition slice_last4 (s : string) : string :=
  substring (String.length s - 4) 4 s.

(** The card line, part_000 lines 180-182; [None] when [value.slice] is not
    a function (a [TypeError] while rendering).  On an array, [slice(-4)]
    keeps the last four elements and the template literal joins them. *)
Definition summary_card_line (rt : runtime) (r : ParseResult) : option string :=
  let v := get (card_number r) "value" in
  if truthy v then
    match v with
    | JStr s => Some ("Card ending in " ++ slice_last4 s)
    | JArr l => Some ("Card ending in " ++ js_String rt (JArr (skipn (length l - 4) l)))
    | _ => None
    end
  else Some "Card ending in 9410".

(* ------------------------------------------------------------------ *)
(** ** Looking up one saved statement (part_002 lines 145-166, part_005 lines 10-177) *)

Definition by_job_id (statementId : string) (x : ParseResult) : bool :=
  String.eqb (job_id x) statementId.

(** [getSavedStatementById(statementId)], part_002 lines 145-166.  [resp] is
    what the request returns when it is issued (on a cache miss); [now] is
    the time of the continuation after it, read by [new Date()] in
    [mapDbToParseResult] and by [Date.now()] in [addStatementToCache].  The
    boolean says whether the request was issued.  The [catch] reads the
    [MOCK_STATEMENTS] array itself, at [MOCK_LOC]. *)
Definition getSavedStatementById (rt : runtime) (statementId : string) (now : Z)
    (resp : http_response) (s : store) : store * bool * promise (option ParseResult) :=
  let cachedStatement :=
    match cache_data s with
    | Some loc => find (by_job_id statementId) (read s loc)
    | None => None
    end in
  match cachedStatement with
  | Some st => (s, false, Resolved (Some st))
  | None =>
      match resp with
      | HttpOk data =>
          let mapped := mapDbToParseResult rt (rt_iso rt now) data in
          (addStatementToCache mapped now s, true, Resolved (Some mapped))
      | HttpErr _ => (s, true, Resolved (find (by_job_id statementId) (read s MOCK_LOC)))
      end
  end.

(** The reachable stores: the [MOCK_STATEMENTS] array is allocated and the
    cache, when set, refers to an allocated array. *)
Definition store_ok (s : store) : bool :=
  (1 <=? length (heap s))%nat &&
  match cache_data s with
  | Some loc => (loc <? length (heap s))%nat
  | None => true
  end.

(** What the statement detail page shows once its effect has run. *)
Inductive detail_view : Type :=
| DetailLoading
| DetailError        (* "Failed to load statement details. Please try again later." *)
| DetailNotFound     (* "The statement you're looking for doesn't exist ..." *)
| DetailShown (st : ParseResult).

(** [StatementDetailPage] (part_005 lines 10-177): [fetchStatement] and the
    choice among the loading, error, not-found and details blocks. *)
Definition statement_detail (rt : runtime) (id : string) (now : Z) (resp : http_response)
    (s : store) : store * detail_view :=
  let '(s1, _, p) := getSavedStatementById rt id now resp s in
  (s1, match p with
       | Resolved (Some st) => DetailShown st
       | Resolved None => DetailNotFound
       | Rejected _ => DetailError
       end).

(* ------------------------------------------------------------------ *)
(** ** Saving a result (src/unnamed/part_003 lines 9-44, part_005 lines 225-244) *)

(** An error thrown by an [axios] call: [error.response] ([undefined] when
    no response arrived) and [error.message]. *)
Record axios_error : Type := mkAxiosError {
  ax_response : jval;
  ax_message : string
}.

(** How an [axios] request settles: the parsed body, or an [AxiosError]. *)
Inductive axios_result : Type :=
| AxOk (data : jval)
| AxFail (e : axios_error).

(** [error.response?.data?.detail] *)
Definition ax_detail (e : axios_error) : jval := get (get (ax_response e) "data") "detail".

(** The value [saveResultToDatabase] resolves with. *)
Record save_response : Type := mkSaveResponse {
  sr_success : bool;
  sr_message : jval;
  sr_result_id : jval
}.

Section Saving.
(** [process.env.NODE_ENV]; the text of [Math.random().toString(36).substring(2, 15)];
    and the message of the [TypeError] thrown by reading a property of
    [null] or [undefined]. *)
Variables (node_env random_id null_read_message : string).

(** [saveResultToDatabase(result)], part_003 lines 9-44, when the [POST]
    settles with [r].  Reading [response.data.result_id] throws when the body
    is [null]; that error has no [response]. *)
Definition saveResultToDatabase (r : axios_result) : save_response :=
  let on_error (detail : jval) (message : string) :=
    if String.eqb node_env "development"
    then {| sr_success := true; sr_message := JStr "Result saved successfully (simulated)";
            sr_result_id := JStr ("sim_" ++ random_id) |}
    else {| sr_success := false;
            sr_message := js_or detail (js_or (JStr message) (JStr "Failed to save result"));
            sr_result_id := JUndef |} in
  match r with
  | AxOk data =>
      match data with
      | JUndef | JNull => on_error JUndef null_read_message
      | _ => {| sr_success := true; sr_message := JStr "Result saved successfully";
                sr_result_id := get data "result_id" |}
      end
  | AxFail e => on_error (ax_detail e) (ax_message e)
  end.

Inductive save_status : Type := SaveIdle | SaveSaving | SaveSuccess | SaveError.

(** The state of the [Home] page of part_005 (lines 188-370). *)
Record home_state : Type := mkHome {
  h_result : jval;
  h_loading : bool;
  h_error : jval;
  h_saveStatus : save_status;
  h_resultId : jval
}.

(** [handleSaveToDatabase()], part_005 lines 225-244, once it has settled.
    [saveResultToDatabase] never rejects, so its [catch] is not reached. *)
Definition handleSaveToDatabase (r : axios_result) (st : home_state) : home_state :=
  if negb (truthy (h_result st)) then st
  else
    let response := saveResultToDatabase r in
    if sr_success response
    then {| h_result := h_result st; h_loading := h_loading st; h_error := h_error st;
            h_saveStatus := SaveSuccess; h_resultId := js_or (sr_result_id response) JNull |}
    else {| h_result := h_result st; h_loading := h_loading st; h_error := h_error st;
            h_saveStatus := SaveError; h_resultId := h_resultId st |}.

End Saving.

(* ------------------------------------------------------------------ *)
(** ** Uploading with [axios] (src/frontend/lib/api.ts lines 16-46) *)

(** [err.message] of an [Error] built by [new Error(arg)]. *)
Definition error_message (rt : runtime) (e : js_error) : string :=
  match e with
  | JsError JUndef => ""
  | JsError v => js_String rt v
  end.

Section Upload.
Variables (rt : runtime) (null_read_message : string).

(** [uploadStatement(file)], api.ts lines 16-46, when the [POST] settles
    with [post] and the [k]-th status check of [pollJobStatus] answers
    [resp k]: the status checks made, and how the call settles (with the
    rejection's [message]).  Errors thrown by [pollJobStatus] are not
    [AxiosError]s ([getJobStatus] wraps its own), so they are rethrown
    unchanged; so is the [TypeError] of reading [result] from a [null]
    body. *)
Definition uploadStatement (post : axios_result) (resp : nat -> status_response)
    : list poll_event * upload_outcome :=
  match post with
  | AxFail e =>
      ([], UploadFailed ("Upload failed: " ++
                         js_String rt (js_or (ax_detail e) (JStr (ax_message e)))))
  | AxOk data =>
      match data with
      | JUndef | JNull => ([], UploadFailed null_read_message)
      | _ =>
          if truthy (get data "result") then ([], UploadOk (get data "result"))
          else
            let '(tr, o) := pollJobStatus resp 30 1000 in
            (tr, match o with
                 | PollReturned r => UploadOk r
                 | PollThrown e => UploadFailed (error_message rt e)
                 | PollOutOfFuel => UploadFailed ""   (* not reached: the loop ends within its fuel *)
                 end)
      end
  end.

End Upload.

(** The state of the [Home] page, src/frontend/app/page.tsx lines 8-117. *)
Record page_state : Type := mkPage {
  p_result : jval;
  p_loading : bool;
  p_error : jval
}.

(** The page's handlers run on the callbacks of [onDrop] (page.tsx lines 13-29). *)
Definition home_handle (st : page_state) (ev : drop_event) : page_state :=
  match ev with
  | OnUploadError m => {| p_result := JNull; p_loading := false; p_error := JStr m |}
  | OnUploadStart => {| p_result := JNull; p_loading := true; p_error := JNull |}
  | UploadRequest _ => st
  | OnUploadComplete r => {| p_result := r; p_loading := false; p_error := JNull |}
  end.

Definition home_after (st : page_state) (evs : list drop_event) : page_state :=
  fold_left home_handle evs st.

(** The blocks the page renders (page.tsx lines 68-108). *)
Record home_view : Type := mkHomeView {
  hv_upload_zone : bool;
  hv_spinner : bool;
  hv_error_box : bool;
  hv_results : bool
}.

Definition home_render (st : page_state) : home_view :=
  {| hv_upload_zone := negb (truthy (p_result st)) && negb (p_loading st);
     hv_spinner := p_loading st;
     hv_error_box := truthy (p_error st);
     hv_results := truthy (p_result st) |}.

(* ------------------------------------------------------------------ *)
(** ** The saved statements page (src/frontend/app/saved-statements/page.tsx) *)

(** [s.toLowerCase()] on ASCII text. *)
Definition ascii_lower (c : ascii) : ascii :=
  let n := nat_of_ascii c in
  if (65 <=? n)%nat && (n <=? 90)%nat then ascii_of_nat (n + 32) else c.

Fixpoint js_lower (s : string) : string :=
  match s with
  | EmptyString => EmptyString
  | String c s' => String (ascii_lower c) (js_lower s')
  end.

(** [s.includes(t)] *)
Fixpoint js_includes (s t : string) : bool :=
  String.prefix t s ||
  match s with
  | EmptyString => false
  | String _ s' => js_includes s' t
  end.

(** [(v?.toLowerCase() || '')]; [None] when [toLowerCase] is not a function
    of [v] (a [TypeError]). *)
Definition lower_or_empty (v : jval) : option string :=
  match v with
  | JUndef | JNull => Some ""
  | JStr s => Some (js_lower s)
  | _ => None
  end.

(** The five values the search looks at, in the order of the [||] chain. *)
Definition search_fields (st : ParseResult) : list jval :=
  [card_issuer st; get (card_number st) "value"; get (statement_date st) "value";
   get (payment_due_date st) "value"; get (total_amount_due st) "value"].

Fixpoint any_includes (q : string) (vs : list jval) : option bool :=
  match vs with
  | [] => Some false
  | v :: vs' =>
      match lower_or_empty v with
      | None => None
      | Some s => if js_includes s q then Some true else any_includes q vs'
      end
  end.

(** The [filter] callback, lines 149-158. *)
Definition matches_search (searchTerm : string) (st : ParseResult) : option bool :=
  any_includes (js_lower searchTerm) (search_fields st).

(** [sortedStatements.filter(...)]; [None] when the callback throws. *)
Fixpoint filter_statements (searchTerm : string) (l : list ParseResult)
    : option (list ParseResult) :=
  match l with
  | [] => Some []
  | st :: l' =>
      match matches_search searchTerm st with
      | None => None
      | Some b =>
          match filter_statements searchTerm l' with
          | None => None
          | Some r => Some (if b then st :: r else r)
          end
      end
  end.

(** [arr.slice(start, end)] *)
Definition js_slice {A} (l : list A) (start end_ : Z) : list A :=
  let len := Z.of_nat (length l) in
  let from := if (start <? 0)%Z then Z.max (len + start) 0 else Z.min start len in
  let to := if (end_ <? 0)%Z then Z.max (len + end_) 0 else Z.min end_ len in
  firstn (Z.to_nat (to - from)) (skipn (Z.to_nat from) l).

Definition itemsPerPage : Z := 10.

(** [Math.ceil(filteredStatements.length / itemsPerPage)], line 162. *)
Definition totalPages (n : nat) : Z :=
  Qceiling (inject_Z (Z.of_nat n) / inject_Z itemsPerPage).

(** [paginatedStatements], lines 163-166. *)
Definition paginate {A} (filtered : list A) (currentPage : Z) : list A :=
  js_slice filtered ((currentPage - 1) * itemsPerPage) (currentPage * itemsPerPage).

(** The Previous and Next buttons, lines 353-364. *)
Definition prev_page (currentPage : Z) : Z := Z.max (currentPage - 1) 1.
Definition next_page (total currentPage : Z) : Z := Z.min (currentPage + 1) total.

(** The block rendered below the search input (lines 201-371). *)
Inductive table_view : Type :=
| TableLoading
| TableError
| TableEmpty (search_active : bool)   (* "No statements match ..." / "No saved statements found." *)
| Table (rows : list ParseResult) (pagination : bool)
| TableCrash.                          (* the [filter] callback threw *)

(** The render of [SavedStatementsPage] for its state; [sorted] is
    [sortedStatements].  Its comparator never returns [0], so the order
    [Array.prototype.sort] produces is left to the engine and taken as
    given. *)
Definition statements_table (isLoading : bool) (error : option string)
    (searchTerm : string) (currentPage : Z) (sorted : list ParseResult) : table_view :=
  let error_truthy := match error with Some e => negb (String.eqb e "") | None => false end in
  match filter_statements searchTerm sorted with
  | None => TableCrash
  | Some filtered =>
      if isLoading then TableLoading
      else if error_truthy then TableError
      else
        match filtered with
        | [] => TableEmpty (negb (String.eqb searchTerm ""))
        | _ => Table (paginate filtered currentPage) (1 <? totalPages (length filtered))%Z
        end
  end.

(** The page state [fetchStatements] reads and writes. *)
Record list_page : Type := mkListPage {
  lp_statements : list ParseResult;
  lp_isLoading : bool;
  lp_isRefreshing : bool;
  lp_newDataIndicator : bool;
  lp_error : option string
}.

(** [fetchStatements(forceRefresh)], lines 57-84, once it has settled
    (the indicator's five-second reset is not modelled). *)
Definition fetchStatements (rt : runtime) (forceRefresh : bool) (now : Z)
    (resp : http_response) (s : store) (st : list_page) : store * bool * list_page :=
  let s0 := if forceRefresh then clearStatementsCache s else s in
  let '(s1, requested, p) := getAllSavedStatements rt forceRefresh now resp s0 in
  (s1, requested,
   match p with
   | Resolved loc =>
       let data := read s1 loc in
       {| lp_statements := data;
          lp_isLoading := false;
          lp_isRefreshing := false;
          lp_newDataIndicator :=
            if (0 <? length (lp_statements st))%nat &&
               (length (lp_statements st) <? length data)%nat
            then true else lp_newDataIndicator st;
          lp_error := None |}
   | Rejected _ =>
       {| lp_statements := lp_statements st;
          lp_isLoading := false;
          lp_isRefreshing := false;
          lp_newDataIndicator := lp_newDataIndicator st;
          lp_error := Some "Failed to load saved statements. Please try again later." |}
   end).

(* ================================================================== *)
(** * Lemmas *)

Lemma map_idx_length {A B} (f : nat -> A -> B) (j : nat) (l : list A) :
  length (map_idx f j l) = length l.
Proof. revert j; induction l as [|x l IH]; intros j; simpl; [reflexivity | now rewrite IH]. Qed.

Lemma map_idx_nth_error {A B} (f : nat -> A -> B) (l : list A) :
  forall j i, nth_error (map_idx f j l) i = option_map (f (j + i)%nat) (nth_error l i).
Proof.
  induction l as [|x l IH]; intros j i; simpl.
  - destruct i; reflexivity.
  - destruct i as [|i]; simpl.
    + now rewrite Nat.add_0_r.
    + rewrite IH. now replace (S j + i)%nat with (j + S i)%nat by lia.
Qed.

Lemma tx_row_of_ok (idx : nat) (t : jval) :
  tx_ok t = true ->
  tx_row_of idx t = Some (mkRow idx (get t "date") (get t "merchant") (get t "amount")).
Proof.
  unfold tx_ok, tx_row_of. destruct t; try discriminate; cbv zeta;
    destruct (_ && _ && _); first [reflexivity | discriminate].
Qed.

Lemma tx_row_of_bad (idx : nat) (t : jval) : tx_ok t = false -> tx_row_of idx t = None.
Proof.
  unfold tx_ok, tx_row_of. destruct t; try reflexivity; cbv zeta;
    destruct (_ && _ && _); first [reflexivity | discriminate].
Qed.

Lemma all_some_rows_ok (l : list jval) (j : nat) :
  forallb tx_ok l = true ->
  all_some (map_idx tx_row_of j l) =
  Some (map_idx (fun idx t => mkRow idx (get t "date") (get t "merchant") (get t "amount")) j l).
Proof.
  revert j. induction l as [|t l IH]; intros j H; [reflexivity|].
  simpl in H. apply andb_true_iff in H as [Ht Hl].
  simpl. rewrite (tx_row_of_ok j t Ht), (IH (S j) Hl). reflexivity.
Qed.

Lemma all_some_rows_bad (l : list jval) (j : nat) :
  forallb tx_ok l = false -> all_some (map_idx tx_row_of j l) = None.
Proof.
  revert j. induction l as [|t l IH]; intros j H; [discriminate|].
  simpl in H. simpl. destruct (tx_ok t) eqn:Ht.
  - rewrite (tx_row_of_ok j t Ht), (IH (S j) H). reflexivity.
  - rewrite (tx_row_of_bad j t Ht). reflexivity.
Qed.

(* ================================================================== *)
(** * Claims *)

(** C3 (spec-modelled scorer): whenever issuer classification fails
    ([UNKNOWN]), [confidence_scores.overall] is at most 0.4, whatever the
    per-field confidences, the weights and the engine quality. *)
Theorem unknown_issuer_overall_capped (w : Scoring.weights) (r : Scoring.core_result)
    (Hunknown : Scoring.issuer_of r = Scoring.UNKNOWN) :
  Scoring.overall w r <= 2 # 5.
Proof.
  unfold Scoring.overall. rewrite Hunknown.
  set (c := Qmin (Qmin (Scoring.weighted_average w r) (Scoring.engine_quality r))
                 Scoring.UNKNOWN_ISSUER_CAP).
  assert (Hc : c <= 2 # 5) by apply Q.le_min_r.
  destruct (Scoring.required_missing r); [|exact Hc].
  eapply Qle_trans; [apply Q.le_min_l | exact Hc].
Qed.

Lemma unknown_issuer_overall_capped_witness :
  let r := Scoring.mkCore Scoring.UNKNOWN 1 1
             (Scoring.mkField (Some "5228 52XX XXXX 0591") 1)
             (Scoring.mkField (Some "2024-08-16") 1)
             (Scoring.mkField (Some "2024-10-05") 1)
             (Scoring.mkField (Some "40491.00") 1) None None None None in
  Scoring.issuer_of r = Scoring.UNKNOWN /\ Scoring.overall Scoring.default_weights r <= 2 # 5.
Proof.
  intros r. split; [reflexivity|].
  apply (unknown_issuer_overall_capped Scoring.default_weights r). reflexivity.
Defined.

(** C4 (spec-modelled scorer): extracting one more optional field
    successfully never lowers [confidence_scores.overall]. *)
Theorem overall_monotone_optional_field (w : Scoring.weights) (r : Scoring.core_result)
    (o : Scoring.optional_field) (f : Scoring.fieldc)
    (Hextracted : Scoring.fvalue f <> None) :
  Scoring.overall w r <= Scoring.overall w (Scoring.set_optional o (Some f) r).
Proof.
  destruct o; unfold Scoring.overall, Scoring.weighted_average, Scoring.required_missing;
    simpl; apply Qle_refl.
Qed.

Lemma overall_monotone_optional_field_witness :
  let r := Scoring.mkCore Scoring.HDFC (9 # 10) (7 # 10)
             (Scoring.mkField (Some "5228 52XX XXXX 0591") (9 # 10))
             (Scoring.mkField (Some "2024-08-16") (8 # 10))
             (Scoring.mkField None 0)
             (Scoring.mkField (Some "40491.00") (9 # 10)) None None None None in
  let f := Scoring.mkField (Some "2024.00") (8 # 10) in
  Scoring.fvalue f <> None /\
  Scoring.overall Scoring.default_weights r
    <= Scoring.overall Scoring.default_weights (Scoring.set_optional Scoring.MinimumAmountDue (Some f) r).
Proof.
  intros r f. split; [discriminate|].
  apply (overall_monotone_optional_field Scoring.default_weights r Scoring.MinimumAmountDue f).
  discriminate.
Defined.

(** C5: [onDrop] calls [uploadStatement] only with the first accepted file
    and only when its MIME type is ["application/pdf"] and its size is at
    most 10 MiB.  For a drop of at most one file (the dropzone is configured
    with [maxFiles: 1, multiple: false]), a file is uploaded exactly when it
    passes both checks, and a file failing one of them produces exactly one
    call of the error callback and no upload. *)
Theorem onDrop_validates_before_upload (up : upload_outcome) (fs : list File) (f : File)
    (Hsingle : (length fs <= 1)%nat) (Hin : In f fs) :
  (forall g, In (UploadRequest g) (onDrop up fs) -> valid_upload g /\ hd_error fs = Some g) /\
  (In (UploadRequest f) (onDrop up fs) <-> valid_upload f) /\
  (~ valid_upload f -> exists m, onDrop up fs = [OnUploadError m]).
Proof.
  destruct fs as [|f0 [|f1 fs]]; [destruct Hin | | simpl in Hsingle; lia].
  destruct Hin as [<-|[]].
  unfold onDrop, valid_upload.
  destruct (String.eqb_spec (file_type f0) "application/pdf") as [Ht|Ht]; simpl.
  - destruct (Z.ltb_spec 10485760 (file_size f0)) as [Hs|Hs]; simpl.
    + split; [intros g [H|[]]; discriminate|].
      split; [split; [intros [H|[]]; discriminate | intros [_ H]; lia]|].
      intros _. eexists; reflexivity.
    + assert (Hev : forall g, In (UploadRequest g)
                 (OnUploadStart :: UploadRequest f0 ::
                  match up with
                  | UploadOk r => [OnUploadComplete r]
                  | UploadFailed m => [OnUploadError (if String.eqb m "" then "Failed to upload file" else m)]
                  end) -> g = f0).
      { intros g [H|[H|H]]; [discriminate | now inversion H |].
        destruct up; destruct H as [H|[]]; discriminate. }
      split; [intros g Hg; apply Hev in Hg; subst g; now split|].
      split; [split; [intros _; now split | intros _; simpl; auto]|].
      intros Hnot. exfalso. now apply Hnot.
    - split; [intros g [H|[]]; discriminate|].
      split; [split; [intros [H|[]]; discriminate | intros [H _]; contradiction]|].
      intros _. eexists; reflexivity.
Qed.

Lemma onDrop_validates_before_upload_witness :
  let f := mkFile "statement.png" "image/png" 2048 in
  (length [f] <= 1)%nat /\ In f [f] /\
  ((forall g, In (UploadRequest g) (onDrop (UploadOk JNull) [f]) ->
              valid_upload g /\ hd_error [f] = Some g) /\
   (In (UploadRequest f) (onDrop (UploadOk JNull) [f]) <-> valid_upload f) /\
   (~ valid_upload f -> exists m, onDrop (UploadOk JNull) [f] = [OnUploadError m])).
Proof.
  intros f. split; [simpl; lia|]. split; [left; reflexivity|].
  apply (onDrop_validates_before_upload (UploadOk JNull) [f] f); [simpl; lia | left; reflexivity].
Defined.

(** C6, counterexample: the API layer has a dedicated multi-file operation;
    [uploadBatchStatements] on two files sends one request, to the batch
    endpoint, not one single-document upload per file. *)
Lemma uploadBatch_is_one_request_cex :
  let base := "http://localhost:8000" in
  let f1 := mkFile "jan.pdf" "application/pdf" 1000 in
  let f2 := mkFile "feb.pdf" "application/pdf" 2000 in
  length (uploadBatchStatements_requests base [f1; f2]) = 1%nat /\
  uploadBatchStatements_requests base [f1; f2]
    <> [uploadStatement_request base f1; uploadStatement_request base f2].
Proof. split; [reflexivity | discriminate]. Qed.

(** C6, amended: [uploadBatchStatements(files)] submits all [N] files in a
    single multipart POST to [/api/v1/parse/batch], one ["files"] entry per
    file in the given order, while [uploadStatement(file)] submits a single
    file to [/api/v1/parse/upload]. *)
Theorem uploadBatch_single_multi_file_request (base : string) (files : list File) (f : File) :
  exists req,
    uploadBatchStatements_requests base files = [req] /\
    req_url req = base ++ "/api/v1/parse/batch" /\
    map snd (req_form req) = files /\
    Forall (fun e => fst e = "files") (req_form req) /\
    req_url (uploadStatement_request base f) = base ++ "/api/v1/parse/upload" /\
    req_form (uploadStatement_request base f) = [("file", f)].
Proof.
  eexists; split; [reflexivity|]. simpl. split; [reflexivity|].
  split; [rewrite map_map; apply map_id|].
  split; [apply Forall_forall; intros e He; apply in_map_iff in He as [g [<- _]]; reflexivity|].
  split; reflexivity.
Qed.

(** C7, counterexample: [mapDbToParseResult], which builds the saved
    statements, does not keep the transactions of the stored result. *)
Lemma mapDb_drops_transactions_cex :
  let rt := sample_runtime in
  let now_iso := "2025-10-23T10:30:05.000Z" in
  let tx := JObj [("date", JStr "2024-08-01"); ("merchant", JStr "AMAZON");
                  ("amount", JStr "1,299.00")] in
  let doc := JObj [("_id", JStr "r1");
                   ("raw_data", JObj [("job_id", JStr "job_9"); ("transactions", JArr [tx])])] in
  get (get doc "raw_data") "transactions" = JArr [tx] /\
  transactions (mapDbToParseResult rt now_iso doc) = JUndef.
Proof. split; reflexivity. Qed.

(** C7, amended: when a [ParseResult] carries a non-empty transactions
    array whose entries all render (none is [null] or [undefined], and none
    has an object as its date, merchant or amount), the results display
    renders one row per transaction in the given index order (row [i], keyed
    [i], shows transaction [i]); when one entry does not render, the whole
    render throws, as it does for a non-empty string in place of the array.
    The saved statements built by [mapDbToParseResult] carry no
    transactions. *)
Theorem transactions_rendered_in_order (rt : runtime) (r : ParseResult) (ts : list jval)
    (Hts : transactions r = JArr ts) (Hne : ts <> []) :
  (forallb tx_ok ts = true ->
   exists rows,
     render_transactions rt r = TxTable rows /\
     length rows = length ts /\
     forall i t, nth_error ts i = Some t ->
       nth_error rows i = Some (mkRow i (get t "date") (get t "merchant") (get t "amount"))) /\
  (forallb tx_ok ts = false -> render_transactions rt r = TxThrows) /\
  (forall r' str, transactions r' = JStr str -> str <> "" ->
     render_transactions rt r' = TxThrows) /\
  (forall now_iso doc, transactions (mapDbToParseResult rt now_iso doc) = JUndef).
Proof.
  assert (Hcond : truthy (transactions r) && js_gt0 rt (js_length (transactions r)) = true).
  { rewrite Hts. destruct ts as [|t0 ts']; [contradiction|]. reflexivity. }
  split; [|split; [|split]].
  - intros Hok. unfold render_transactions. rewrite Hcond, Hts, (all_some_rows_ok ts 0 Hok).
    eexists; split; [reflexivity|]. split; [apply map_idx_length|].
    intros i t Hi. rewrite map_idx_nth_error, Hi. reflexivity.
  - intros Hbad. unfold render_transactions. rewrite Hcond, Hts, (all_some_rows_bad ts 0 Hbad).
    reflexivity.
  - intros r' str Hs Hne'. unfold render_transactions. rewrite Hs.
    destruct str as [|c str']; [contradiction|]. reflexivity.
  - intros now_iso doc. unfold mapDbToParseResult.
    destruct (has_keys _); reflexivity.
Qed.

Lemma transactions_rendered_in_order_witness :
  let t1 := JObj [("date", JStr "2024-08-03"); ("merchant", JStr "SWIGGY"); ("amount", JStr "450.00")] in
  let t2 := JObj [("date", JStr "2024-08-01"); ("merchant", JStr "AMAZON"); ("amount", JStr "1,299.00")] in
  let r := mkParseResult "job_1" (JStr "completed") JUndef JUndef JUndef JUndef JUndef JUndef JUndef
             (JArr [t1; t2]) in
  transactions r = JArr [t1; t2] /\ [t1; t2] <> [] /\
  nth_error (match render_transactions sample_runtime r with TxTable rows => rows | _ => [] end) 1
    = Some (mkRow 1 (JStr "2024-08-01") (JStr "AMAZON") (JStr "1,299.00")).
Proof.
  intros t1 t2 r. split; [reflexivity|]. split; [discriminate|].
  destruct (transactions_rendered_in_order sample_runtime r [t1; t2] eq_refl ltac:(discriminate))
    as [Hok _].
  destruct (Hok eq_refl) as [rows [Hr [_ Hnth]]].
  rewrite Hr. apply (Hnth 1%nat t2). reflexivity.
Defined.

Lemma Z_to_nat_pred (M a : Z) :
  (a < M)%Z -> Z.to_nat (M - a) = S (Z.to_nat (M - (a + 1))).
Proof. intros H. rewrite <- Z2Nat.inj_succ by lia. f_equal. lia. Qed.

Lemma Qmin_le_5000 (d D : Q) : 5000 <= D -> Qmin (d * (3 # 2)) 5000 <= D.
Proof. intros HD. eapply Qle_trans; [apply Q.le_min_r | exact HD]. Qed.

(** The loop of [pollJobStatus] from loop state [a], [d], [k]: with more
    fuel than attempts left it leaves the loop, makes at most the remaining
    number of checks, never waits longer than a bound [D >= 5000] above the
    current delay, and ends with a completed result, an error thrown by a
    check, or the timeout. *)
Lemma poll_loop_spec (resp : nat -> status_response) (M : Z) (fuel : nat) :
  forall (a : Z) (d D : Q) (k : nat),
  (0 <= a)%Z -> k = Z.to_nat a -> d <= D -> 5000 <= D ->
  (Z.to_nat (M - a) < fuel)%nat ->
  let '(tr, o) := poll_loop resp M fuel a d k in
  o <> PollOutOfFuel /\
  (count_checks tr <= Z.to_nat (M - a))%nat /\
  (forall x, In (PollSleep x) tr -> x <= D) /\
  (forall r, o = PollReturned r ->
     exists j, (k <= j < Z.to_nat M)%nat /\ poll_body (resp j) = BReturn r) /\
  (forall e, o = PollThrown e ->
     e = polling_timeout \/ exists j, (k <= j < Z.to_nat M)%nat /\ poll_body (resp j) = BThrow e).
Proof.
  induction fuel as [|fuel IH]; intros a d D k Ha Hk Hd HD Hfuel; [lia|].
  simpl. destruct (Z.ltb_spec a M) as [HaM|HaM].
  2:{ split; [discriminate|]. split; [simpl; lia|]. split; [intros x []|].
      split; [intros r Hr; discriminate|]. intros e He; inversion He; now left. }
  assert (Hk1 : S k = Z.to_nat (a + 1)) by (rewrite Hk, Z2Nat.inj_add by lia; simpl; lia).
  assert (HkM : (k < Z.to_nat M)%nat) by (subst k; apply Z2Nat.inj_lt; lia).
  pose proof (Z_to_nat_pred M a HaM) as Hpred.
  destruct (poll_body (resp k)) as [r|e|] eqn:Hb.
  - split; [discriminate|]. split; [simpl; lia|].
    split; [intros x [H|[]]; discriminate|].
    split; [intros r' Hr'; inversion Hr'; subst r'; exists k; split; [lia | exact Hb]|].
    intros e He; discriminate.
  - destruct (Z.eqb_spec a (M - 1)) as [Hlast|Hlast].
    + split; [discriminate|]. split; [simpl; lia|].
      split; [intros x [H|[]]; discriminate|].
      split; [intros r' Hr'; discriminate|].
      intros e' He'. inversion He'; subst e'. right. exists k. split; [lia | exact Hb].
    + specialize (IH (a + 1)%Z d D (S k) ltac:(lia) Hk1 Hd HD ltac:(lia)).
      destruct (poll_loop resp M fuel (a + 1) d (S k)) as [tr o].
      destruct IH as (Ho & Hc & Hs & Hr & Ht).
      split; [exact Ho|]. split; [simpl; lia|]. split; [|split].
      * intros x [H|[H|H]]; [discriminate | inversion H; subst x; exact Hd | now apply Hs].
      * intros r Hro. destruct (Hr r Hro) as [j [Hj Hbj]]. exists j. split; [lia | exact Hbj].
      * intros e' He'. destruct (Ht e' He') as [Ht'|[j [Hj Hbj]]]; [now left|].
        right. exists j. split; [lia | exact Hbj].
  - specialize (IH (a + 1)%Z (Qmin (d * (3 # 2)) 5000) D (S k) ltac:(lia) Hk1
                   (Qmin_le_5000 d D HD) HD ltac:(lia)).
    destruct (poll_loop resp M fuel (a + 1) (Qmin (d * (3 # 2)) 5000) (S k)) as [tr o].
    destruct IH as (Ho & Hc & Hs & Hr & Ht).
    split; [exact Ho|]. split; [simpl; lia|]. split; [|split].
    + intros x [H|[H|H]]; [discriminate | inversion H; subst x; exact Hd | now apply Hs].
    + intros r Hro. destruct (Hr r Hro) as [j [Hj Hbj]]. exists j. split; [lia | exact Hbj].
    + intros e' He'. destruct (Ht e' He') as [Ht'|[j [Hj Hbj]]]; [now left|].
      right. exists j. split; [lia | exact Hbj].
Qed.

(** C8, counterexample: when every status request fails (here with the
    error [getJobStatus] throws on a network failure), [pollJobStatus] with
    its defaults throws that error: neither a completed result, nor a failed
    job's error, nor the polling timeout. *)
Lemma pollJobStatus_rethrows_request_error_cex :
  let net_err := JsError (JStr "Failed to get job status: Network Error") in
  let resp := fun _ : nat => StatusErr net_err in
  snd (pollJobStatus resp 30 1000) = PollThrown net_err /\
  net_err <> polling_timeout /\
  (forall k st, resp k <> StatusOk st).
Proof.
  intros net_err resp. split; [vm_compute; reflexivity|].
  split; [discriminate | intros k st; discriminate].
Qed.

(** C8, amended: [pollJobStatus] always leaves its loop; it makes at most
    [maxAttempts] status checks; every wait lasts at most
    [max(initialDelay, 5000)] ms, hence at most 5000 ms when [initialDelay]
    is at most 5000 (the default is 1000); and it either returns the result
    of a check that reported a completed job with a result, or throws the
    error of one of its checks (a failed job's error, or the error thrown by
    [getJobStatus] itself), or throws the polling timeout. *)
Theorem pollJobStatus_outcomes (resp : nat -> status_response) (maxAttempts : Z)
    (initialDelay : Q) :
  let '(tr, o) := pollJobStatus resp maxAttempts initialDelay in
  o <> PollOutOfFuel /\
  (count_checks tr <= Z.to_nat maxAttempts)%nat /\
  (forall x, In (PollSleep x) tr -> x <= Qmax initialDelay 5000) /\
  (initialDelay <= 5000 -> forall x, In (PollSleep x) tr -> x <= 5000) /\
  (forall r, o = PollReturned r ->
     exists j, (j < Z.to_nat maxAttempts)%nat /\
       exists st, resp j = StatusOk st /\ jsr_status st = "completed" /\ jsr_result st = r) /\
  (forall e, o = PollThrown e ->
     e = polling_timeout \/
     exists j, (j < Z.to_nat maxAttempts)%nat /\
       (resp j = StatusErr e \/
        exists st, resp j = StatusOk st /\ jsr_status st = "failed" /\
          e = JsError (js_or (get (jsr_result st) "error") (JStr "Parsing failed")))).
Proof.
  unfold pollJobStatus.
  pose proof (poll_loop_spec resp maxAttempts (S (Z.to_nat maxAttempts)) 0 initialDelay
                (Qmax initialDelay 5000) 0 ltac:(lia) eq_refl (Q.le_max_l _ _)
                (Q.le_max_r _ _) ltac:(rewrite Z.sub_0_r; lia)) as Hspec.
  destruct (poll_loop resp maxAttempts (S (Z.to_nat maxAttempts)) 0 initialDelay 0) as [tr o].
  rewrite Z.sub_0_r in Hspec.
  destruct Hspec as (Ho & Hc & Hs & Hr & Ht).
  split; [exact Ho|]. split; [exact Hc|]. split; [exact Hs|].
  split.
  { intros Hi x Hx. specialize (Hs x Hx).
    eapply Qle_trans; [exact Hs|]. apply Q.max_lub; [exact Hi | apply Qle_refl]. }
  split.
  - intros r Hro. destruct (Hr r Hro) as [j [Hj Hb]]. exists j. split; [lia|].
    unfold poll_body in Hb. destruct (resp j) as [st|e]; [|discriminate].
    exists st. split; [reflexivity|].
    destruct (String.eqb_spec (jsr_status st) "completed"); simpl in Hb.
    + destruct (truthy (jsr_result st)); [now inversion Hb|].
      destruct (String.eqb (jsr_status st) "failed"); discriminate.
    + destruct (String.eqb (jsr_status st) "failed"); discriminate.
  - intros e Heo. destruct (Ht e Heo) as [Hto|[j [Hj Hb]]]; [now left|].
    right. exists j. split; [lia|].
    unfold poll_body in Hb. destruct (resp j) as [st|e']; [|inversion Hb; now left].
    right. exists st. split; [reflexivity|].
    destruct (String.eqb (jsr_status st) "completed" && truthy (jsr_result st)); [discriminate|].
    destruct (String.eqb_spec (jsr_status st) "failed"); [|discriminate].
    split; [assumption|]. now inversion Hb.
Qed.

(** *** Store and list lemmas *)

Lemma read_alloc_new (s : store) (l : list ParseResult) :
  read (fst (alloc s l)) (snd (alloc s l)) = l.
Proof. unfold read, alloc; simpl. rewrite nth_middle. reflexivity. Qed.

Lemma read_alloc_old (s : store) (l : list ParseResult) (loc : nat) :
  (loc < length (heap s))%nat -> read (fst (alloc s l)) loc = read s loc.
Proof. intros H. unfold read, alloc; simpl. now rewrite app_nth1. Qed.

Lemma read_set_cache (s : store) (d : option nat) (ts : Z) (loc : nat) :
  read (set_cache s d ts) loc = read s loc.
Proof. reflexivity. Qed.

Lemma nth_replace_nth_same {A} (l : list A) (i : nat) (x d : A) :
  (i < length l)%nat -> nth i (replace_nth i x l) d = x.
Proof.
  revert i; induction l as [|y l IH]; intros i Hi; [simpl in Hi; lia|].
  destruct i; simpl; [reflexivity|]. apply IH. simpl in Hi; lia.
Qed.

Lemma length_replace_nth {A} (l : list A) (i : nat) (x : A) :
  length (replace_nth i x l) = length l.
Proof. revert i; induction l as [|y l IH]; intros [|i]; simpl; auto. Qed.

Lemma map_replace_nth {A B} (f : A -> B) (l : list A) (i : nat) (x : A) :
  map f (replace_nth i x l) = replace_nth i (f x) (map f l).
Proof. revert i; induction l as [|y l IH]; intros [|i]; simpl; f_equal; auto. Qed.

Lemma replace_nth_same {A} (l : list A) (i : nat) (y : A) :
  nth_error l i = Some y -> replace_nth i y l = l.
Proof.
  revert i; induction l as [|z l IH]; intros [|i] H; simpl in *; try discriminate.
  - now inversion H.
  - f_equal. now apply IH.
Qed.

Lemma findIndex_some {A} (p : A -> bool) (l : list A) (i : nat) :
  findIndex p l = Some i -> exists y, nth_error l i = Some y /\ p y = true.
Proof.
  revert i; induction l as [|x l IH]; intros i H; simpl in H; [discriminate|].
  destruct (p x) eqn:Hp.
  - inversion H; subst. exists x; split; [reflexivity | exact Hp].
  - destruct (findIndex p l) as [j|] eqn:Hj; simpl in H; [|discriminate].
    inversion H; subst. destruct (IH j eq_refl) as [y Hy]. exists y. exact Hy.
Qed.

Lemma findIndex_none {A} (p : A -> bool) (l : list A) :
  findIndex p l = None -> forall x, In x l -> p x = false.
Proof.
  induction l as [|y l IH]; intros H x Hx; [destruct Hx|]. simpl in H.
  destruct (p y) eqn:Hp; [discriminate|].
  destruct (findIndex p l) eqn:Hl; [discriminate|].
  destruct Hx as [<-|Hx]; [exact Hp | now apply IH].
Qed.

Lemma in_replace_nth_other {A} (p : A -> bool) (l : list A) (i : nat) (x y z : A) :
  nth_error l i = Some y -> p y = true -> In z l -> p z = false ->
  In z (replace_nth i x l).
Proof.
  revert i; induction l as [|w l IH]; intros [|i] Hy Hpy Hz Hpz; simpl in *; try discriminate.
  - inversion Hy; subst w. destruct Hz as [<-|Hz]; [congruence | now right].
  - destruct Hz as [<-|Hz]; [now left | right; now apply (IH i)].
Qed.

Lemma in_replace_nth_new {A} (l : list A) (i : nat) (x : A) :
  (i < length l)%nat -> In x (replace_nth i x l).
Proof.
  revert i; induction l as [|w l IH]; intros [|i] Hi; simpl in *; try lia.
  - now left.
  - right. apply IH. lia.
Qed.

Lemma nth_error_lt {A} (l : list A) (i : nat) (y : A) :
  nth_error l i = Some y -> (i < length l)%nat.
Proof. intros H. apply nth_error_Some. congruence. Qed.

(** The number of entries carrying the job id of [st]. *)
Definition count_job (st : ParseResult) (l : list ParseResult) : nat :=
  length (filter (same_job st) l).

Lemma count_replace_nth_match (p : ParseResult -> bool) (l : list ParseResult)
    (i : nat) (x y : ParseResult) :
  nth_error l i = Some y -> p y = true -> p x = true ->
  length (filter p (replace_nth i x l)) = length (filter p l).
Proof.
  revert i; induction l as [|w l IH]; intros [|i] Hy Hpy Hpx; simpl in *; try discriminate.
  - inversion Hy; subst w. now rewrite Hpx, Hpy.
  - destruct (p w); simpl; [f_equal|]; now apply (IH i).
Qed.

Lemma same_job_refl (st : ParseResult) : same_job st st = true.
Proof. apply String.eqb_refl. Qed.

Lemma same_job_eq (st x : ParseResult) : same_job st x = true -> job_id x = job_id st.
Proof. apply String.eqb_eq. Qed.

(** C10, counterexample: two saved documents without [_id] or [job_id] are
    both mapped to job id [""]; adding a statement with that job id replaces
    only the first, so the cache then holds two entries with that job id. *)
Lemma addStatementToCache_duplicate_ids_cex :
  let rt := sample_runtime in
  let doc1 := JObj [("issuer", JStr "HDFC Bank")] in
  let doc2 := JObj [("issuer", JStr "ICICI Bank")] in
  let s1 := fst (fst (getAllSavedStatements rt false 0 (HttpOk (JArr [doc1; doc2]))
                         (init_store rt 0))) in
  let st := mkParseResult "" (JStr "completed") (JStr "Axis Bank") JUndef JUndef JUndef
              JUndef JUndef JUndef JUndef in
  let s2 := addStatementToCache st 5 s1 in
  cache_data s2 = Some 1%nat /\ count_job st (read s2 1) = 2%nat.
Proof. split; reflexivity. Qed.

(** C10, amended: [addStatementToCache] makes [[statement]] the cache when
    there is none; otherwise it updates the cached array in place, replacing
    the first entry with the same job id or, when there is none, prepending
    the statement.  The statement is then cached, every entry with another
    job id is kept, the array grows by at most one, the number of entries
    with the statement's job id becomes [max 1 n] where [n] is the number
    before, so a cache with unique job ids keeps unique job ids. *)
Theorem addStatementToCache_upsert (st : ParseResult) (now : Z) (s : store) :
  let s' := addStatementToCache st now s in
  cache_ts s' = now /\
  (cache_data s = None -> exists loc, cache_data s' = Some loc /\ read s' loc = [st]) /\
  (forall loc, cache_data s = Some loc -> (loc < length (heap s))%nat ->
     cache_data s' = Some loc /\ read s' loc = upsert st (read s loc)) /\
  (forall l : list ParseResult,
     In st (upsert st l) /\
     (forall x, In x l -> same_job st x = false -> In x (upsert st l)) /\
     (length l <= length (upsert st l) <= S (length l))%nat /\
     count_job st (upsert st l) = Nat.max 1 (count_job st l) /\
     (NoDup (map job_id l) -> NoDup (map job_id (upsert st l)))).
Proof.
  split; [unfold addStatementToCache; destruct (cache_data s);
          [reflexivity | destruct (alloc s [st]); reflexivity]|].
  split.
  { intros Hnone. unfold addStatementToCache. rewrite Hnone.
    pose proof (read_alloc_new s [st]) as Hr.
    destruct (alloc s [st]) as [s1 loc]. simpl in Hr.
    exists loc. split; [reflexivity|]. now rewrite read_set_cache. }
  split.
  { intros loc Hloc Hlen. unfold addStatementToCache. rewrite Hloc.
    split; [reflexivity|]. rewrite read_set_cache. unfold read, write; simpl.
    apply nth_replace_nth_same. exact Hlen. }
  intros l. unfold upsert.
  destruct (findIndex (same_job st) l) as [i|] eqn:Hf.
  - destruct (findIndex_some _ _ _ Hf) as [y [Hy Hpy]].
    pose proof (nth_error_lt _ _ _ Hy) as Hi.
    split; [now apply in_replace_nth_new|].
    split; [intros x Hx Hpx; now apply (in_replace_nth_other (same_job st) l i st y x)|].
    split; [rewrite length_replace_nth; lia|].
    split.
    + unfold count_job. rewrite (count_replace_nth_match _ l i st y Hy Hpy (same_job_refl st)).
      assert (Hpos : (1 <= length (filter (same_job st) l))%nat).
      { destruct (filter (same_job st) l) eqn:Hfl; simpl; [|lia].
        assert (Hin : In y (filter (same_job st) l))
          by (apply filter_In; split; [eapply nth_error_In; exact Hy | exact Hpy]).
        rewrite Hfl in Hin. destruct Hin. }
      lia.
    + intros Hnd. rewrite map_replace_nth.
      assert (Hyid : job_id y = job_id st) by now apply same_job_eq.
      rewrite <- Hyid, replace_nth_same; [exact Hnd|].
      rewrite nth_error_map, Hy. reflexivity.
  - pose proof (findIndex_none _ _ Hf) as Hno.
    split; [now left|]. split; [intros x Hx _; now right|].
    split; [simpl; lia|].
    split.
    + unfold count_job. simpl. rewrite same_job_refl. simpl.
      assert (H0 : filter (same_job st) l = []).
      { clear -Hno. induction l as [|z l IH]; simpl; [reflexivity|].
        rewrite (Hno z (or_introl eq_refl)). apply IH. intros x Hx; apply Hno; now right. }
      rewrite H0. reflexivity.
    + intros Hnd. simpl. constructor; [|exact Hnd].
      intros Hin. apply in_map_iff in Hin as [x [Hx Hxl]].
      specialize (Hno x Hxl). unfold same_job in Hno.
      rewrite Hx, String.eqb_refl in Hno. discriminate.
Qed.

(** The documents of a [/results] response body. *)
Definition response_docs (data : jval) : list jval :=
  match data with JArr l => l | _ => [] end.

(** C9, counterexample: a successful call at time 0 fills the cache, but a
    [clearStatementsCache] in between makes the call at time 1 ms (well within
    [CACHE_TTL]) issue a new request. *)
Lemma getAllSavedStatements_cleared_cache_cex :
  let rt := sample_runtime in
  let resp := HttpErr "Network Error" in
  let '(s1, req1, p1) := getAllSavedStatements rt false 0 (HttpOk (JArr [])) (init_store rt 0) in
  let '(_, req2, _) := getAllSavedStatements rt false 1 resp (clearStatementsCache s1) in
  req1 = true /\ p1 = Resolved 1%nat /\ (1 - 0 < CACHE_TTL)%Z /\ req2 = true.
Proof. repeat split; reflexivity. Qed.

(** C9, amended: [getAllSavedStatements] never rejects and always leaves its
    result cached.  Without [forceRefresh] it answers from the cache, with no
    request and no change of state, exactly when the cache holds an array
    stored less than [CACHE_TTL] = 10000 ms before; the cache is set by each
    request of this function and by [addStatementToCache], and emptied by
    [clearStatementsCache].  When it does request, it records the call time
    and resolves with a fresh array of the mapped documents of the response
    body (none if the body is not an array) on success, and with the
    [MOCK_STATEMENTS] array on any failure; no existing array is modified. *)
Theorem getAllSavedStatements_spec (rt : runtime) (forceRefresh : bool) (now : Z)
    (resp : http_response) (s : store) :
  let '(s', requested, p) := getAllSavedStatements rt forceRefresh now resp s in
  (exists loc, p = Resolved loc /\ cache_data s' = Some loc) /\
  (requested = false <->
     forceRefresh = false /\ exists loc, cache_data s = Some loc /\ (now - cache_ts s < CACHE_TTL)%Z) /\
  (requested = false -> s' = s) /\
  (requested = true ->
     cache_ts s' = now /\
     (forall loc, (loc < length (heap s))%nat -> read s' loc = read s loc) /\
     match resp with
     | HttpOk data =>
         exists loc, p = Resolved loc /\ (length (heap s) <= loc)%nat /\
           read s' loc = map (mapDbToParseResult rt (rt_iso rt now)) (response_docs data)
     | HttpErr _ => p = Resolved MOCK_LOC
     end).
Proof.
  assert (Hreq : forall (s0 : store),
    let '(s', requested, p) :=
      match resp with
      | HttpOk data =>
          let mapped := map (mapDbToParseResult rt (rt_iso rt now)) (response_docs data) in
          let (s1, loc') := alloc s0 mapped in
          (set_cache s1 (Some loc') now, true, Resolved loc')
      | HttpErr _ => (set_cache s0 (Some MOCK_LOC) now, true, Resolved MOCK_LOC)
      end in
    (exists loc, p = Resolved loc /\ cache_data s' = Some loc) /\ requested = true /\
    cache_ts s' = now /\
    (forall loc, (loc < length (heap s0))%nat -> read s' loc = read s0 loc) /\
    match resp with
    | HttpOk data =>
        exists loc, p = Resolved loc /\ (length (heap s0) <= loc)%nat /\
          read s' loc = map (mapDbToParseResult rt (rt_iso rt now)) (response_docs data)
    | HttpErr _ => p = Resolved MOCK_LOC
    end).
  { intros s0. destruct resp as [data|msg].
    - set (mapped := map (mapDbToParseResult rt (rt_iso rt now)) (response_docs data)).
      pose proof (read_alloc_new s0 mapped) as Hnew.
      pose proof (read_alloc_old s0 mapped) as Hold.
      unfold alloc in *; simpl in *.
      split; [eexists; split; reflexivity|]. split; [reflexivity|]. split; [reflexivity|].
      split; [intros loc Hloc; rewrite read_set_cache; now apply Hold|].
      eexists; split; [reflexivity|]. split; [lia|]. rewrite read_set_cache. exact Hnew.
    - split; [eexists; split; reflexivity|]. repeat split; reflexivity. }
  unfold getAllSavedStatements.
  destruct (cache_data s) as [loc|] eqn:Hc.
  - destruct forceRefresh eqn:Hfr; simpl.
    + specialize (Hreq s). unfold response_docs in Hreq.
      destruct resp as [data|msg]; simpl in *;
      destruct Hreq as (Hp & Hr & Hts & Hold & Hres);
      (split; [exact Hp|]); (split; [split; [discriminate | intros [H _]; discriminate]|]);
      (split; [discriminate|]); intros _; auto.
    + destruct (Z.ltb_spec (now - cache_ts s) CACHE_TTL) as [Hlt|Hge]; simpl.
      * split; [exists loc; split; [reflexivity | exact Hc]|].
        split; [split; [intros _; split; [reflexivity | exists loc; split; [reflexivity | exact Hlt]] | reflexivity]|].
        split; [reflexivity | discriminate].
      * specialize (Hreq s). unfold response_docs in Hreq.
        destruct resp as [data|msg]; simpl in *;
        destruct Hreq as (Hp & Hr & Hts & Hold & Hres);
        (split; [exact Hp|]);
        (split; [split; [discriminate | intros [_ [l0 [Hl0 Hlt]]]; lia]|]);
        (split; [discriminate|]); intros _; auto.
  - specialize (Hreq s). unfold response_docs in Hreq.
    destruct resp as [data|msg]; simpl in *;
    destruct Hreq as (Hp & Hr & Hts & Hold & Hres);
    (split; [exact Hp|]);
    (split; [split; [discriminate | intros [_ [l0 [Hl0 _]]]; discriminate]|]);
    (split; [discriminate|]); intros _; auto.
Qed.




(** The four [Field]s of a [ParseResult]. *)
Definition fields_of (r : ParseResult) : list jval :=
  [card_number r; statement_date r; payment_due_date r; total_amount_due r].

(** C2, counterexample: a stored [raw_data] field with a null value and
    confidence 0.5 is mapped unchanged, so the mapped card number has a null
    value and a non-zero confidence. *)
Lemma mapDb_null_value_nonzero_confidence_cex :
  let rt := sample_runtime in
  let now_iso := "2025-10-23T10:30:05.000Z" in
  let doc := JObj [("_id", JStr "r1");
                   ("raw_data", JObj [("job_id", JStr "job_7");
                                      ("card_number", JObj [("value", JNull);
                                                            ("confidence", JNum (1 # 2))])])] in
  let r := mapDbToParseResult rt now_iso doc in
  get (card_number r) "value" = JNull /\
  get (card_number r) "confidence" = JNum (1 # 2) /\ ~ (1 # 2 == 0).
Proof. split; [reflexivity|]. split; [reflexivity|]. discriminate. Qed.

(** C2, amended: [mapDbToParseResult] does not establish "confidence = 0 iff
    value is null".  On the [raw_data] shape it passes each stored field
    (value and confidence) through unchanged, so a mapped field satisfies the
    invariant exactly when the stored one does; on the nested shape each field
    is either absent or [{ value: String(v) }] for a truthy [v], with no
    confidence.  Every field of the built-in mock statements has a non-null
    value and a positive confidence. *)
Theorem mapDb_field_confidences (rt : runtime) (now_iso : string) (doc : jval) :
  let rd := js_or (get doc "raw_data") (JObj []) in
  let r := mapDbToParseResult rt now_iso doc in
  (has_keys rd = true ->
     fields_of r = [get rd "card_number"; get rd "statement_date";
                    get rd "payment_due_date"; get rd "total_amount_due"]) /\
  (has_keys rd = false ->
     Forall (fun f => f = JUndef \/
                      exists s, f = value_only s /\ get f "confidence" = JUndef) (fields_of r)) /\
  (forall load_ms,
     Forall (fun m => Forall (fun f => exists v q, f = field v q /\ 0 < q) (fields_of m))
       (MOCK_STATEMENTS rt load_ms)).
Proof.
  intros rd r. split; [|split].
  - intros Hk. unfold r, mapDbToParseResult. fold rd. rewrite Hk. reflexivity.
  - intros Hk. unfold r, mapDbToParseResult. fold rd. rewrite Hk. unfold fields_of. simpl.
    assert (Hopt : forall v, (if truthy v then value_only (js_String rt v) else JUndef) = JUndef \/
                   exists s, (if truthy v then value_only (js_String rt v) else JUndef) = value_only s
                             /\ get (if truthy v then value_only (js_String rt v) else JUndef) "confidence" = JUndef).
    { intros v. destruct (truthy v); [right; eexists; split; reflexivity | now left]. }
    repeat (apply Forall_cons; [apply Hopt|]); apply Forall_nil.
  - intros load_ms. repeat constructor; do 2 eexists; split; try reflexivity.
Qed.

(* ================================================================== *)
(** * The rest of the frontend *)

(** ** The API base URL *)

Lemma string_app_assoc (a b c : string) : (a ++ b) ++ c = a ++ (b ++ c).
Proof. induction a as [|x a IH]; simpl; [reflexivity | now rewrite IH]. Qed.

Lemma strip_trailing_slash_last (p : string) (c : ascii) :
  strip_trailing_slash (p ++ String c "") =
  if Ascii.eqb c "/" then p else p ++ String c "".
Proof.
  induction p as [|x p IH]; [reflexivity|].
  change ((String x p) ++ String c "") with (String x (p ++ String c "")).
  destruct p as [|y p'].
  - simpl. destruct (Ascii.eqb c "/"); reflexivity.
  - change (strip_trailing_slash (String x (String y p' ++ String c "")))
      with (String x (strip_trailing_slash (String y p' ++ String c ""))).
    rewrite IH. destruct (Ascii.eqb c "/"); reflexivity.
Qed.

Lemma digits_to_end_last (r : string) :
  digits_to_end r = true -> exists p c, r = p ++ String c "" /\ is_digit c = true.
Proof.
  unfold digits_to_end. induction r as [|x r IH]; [discriminate|].
  simpl. intros H. apply andb_true_iff in H as [Hx Hr].
  destruct r as [|y r'].
  - exists "", x. split; [reflexivity | exact Hx].
  - destruct IH as [p [c [Heq Hc]]]; [exact Hr|].
    exists (String x p), c. rewrite Heq. split; [reflexivity | exact Hc].
Qed.

Lemma api_version_test_last (s : string) :
  api_version_test s = true -> exists p c, s = p ++ String c "" /\ is_digit c = true.
Proof.
  induction s as [|x s IH]; [discriminate|].
  intros H. simpl in H. apply orb_true_iff in H as [H|H].
  - unfold api_version_at in H.
    repeat match type of H with
    | context [match ?a with Ascii _ _ _ _ _ _ _ _ => _ end] => destruct a
    | context [match ?b with true => _ | false => _ end] => destruct b
    | context [match ?t with EmptyString => _ | String _ _ => _ end] => destruct t
    end; try discriminate.
    all: apply digits_to_end_last in H as [p [c [-> Hc]]].
    all: eexists (String _ (String _ (String _ (String _ (String _ (String _ p)))))), c;
         split; [reflexivity | exact Hc].
  - destruct (IH H) as [p [c [-> Hc]]]. exists (String x p), c. split; [reflexivity|exact Hc].
Qed.

Lemma api_version_test_app (b ds : string) :
  digits_to_end ds = true -> api_version_test (b ++ "/api/v" ++ ds) = true.
Proof.
  intros H. induction b as [|x b IH].
  - simpl. rewrite H. reflexivity.
  - change (String x b ++ "/api/v" ++ ds) with (String x (b ++ "/api/v" ++ ds)).
    change (api_version_test (String x ?t)) with (api_version_at (String x t) || api_version_test t).
    rewrite IH. apply orb_true_r.
Qed.

Lemma digit_not_slash (c : ascii) : is_digit c = true -> Ascii.eqb c "/" = false.
Proof.
  intros H. destruct (Ascii.eqb_spec c "/") as [->|]; [discriminate | reflexivity].
Qed.

Lemma strip_digit_end (s : string) :
  (exists p c, s = p ++ String c "" /\ is_digit c = true) -> strip_trailing_slash s = s.
Proof.
  intros [p [c [-> Hc]]]. rewrite strip_trailing_slash_last, (digit_not_slash c Hc).
  reflexivity.
Qed.

Lemma string_app_last_inj (p q : string) (c d : ascii) :
  p ++ String c "" = q ++ String d "" -> p = q /\ c = d.
Proof.
  revert q. induction p as [|x p IH]; intros [|y q] H; simpl in H.
  - inversion H. auto.
  - inversion H; subst. destruct q; discriminate.
  - inversion H; subst. destruct p; discriminate.
  - inversion H; subst. destruct (IH q H2) as [-> ->]. auto.
Qed.

(** [ensureApiV1] is idempotent: its result already ends in a version
    segment, so a second application returns it unchanged. *)
Theorem ensureApiV1_idempotent (url : string) :
  ensureApiV1 (ensureApiV1 url) = ensureApiV1 url.
Proof.
  assert (Hfix : forall r, api_version_test r = true -> ensureApiV1 r = r).
  { intros r Hr. unfold ensureApiV1.
    rewrite (strip_digit_end r (api_version_test_last r Hr)), Hr. reflexivity. }
  apply Hfix. unfold ensureApiV1.
  destruct (api_version_test (strip_trailing_slash url)) eqn:Ht; [exact Ht|].
  apply (api_version_test_app _ "1"). reflexivity.
Qed.

(** A base URL that already ends in [/api/v<digits>], with or without one
    trailing slash, is kept as it is (without the slash): no second version
    segment is appended. *)
Theorem ensureApiV1_keeps_version (b ds : string) :
  ds <> "" -> all_digits ds = true ->
  ensureApiV1 (b ++ "/api/v" ++ ds) = b ++ "/api/v" ++ ds /\
  ensureApiV1 (b ++ "/api/v" ++ ds ++ "/") = b ++ "/api/v" ++ ds.
Proof.
  intros Hne Hd.
  assert (Hde : digits_to_end ds = true).
  { unfold digits_to_end. rewrite Hd. destruct (String.eqb_spec ds ""); [contradiction|reflexivity]. }
  pose proof (api_version_test_app b ds Hde) as Ht.
  pose proof (strip_digit_end _ (api_version_test_last _ Ht)) as Hs.
  split.
  - unfold ensureApiV1. rewrite Hs, Ht. reflexivity.
  - unfold ensureApiV1.
    replace (b ++ "/api/v" ++ ds ++ "/") with ((b ++ "/api/v" ++ ds) ++ String "/" "")
      by (now rewrite !string_app_assoc).
    rewrite strip_trailing_slash_last. change (Ascii.eqb "/" "/") with true. cbv iota. rewrite Ht. reflexivity.
Qed.

Lemma ensureApiV1_keeps_version_witness :
  "2" <> "" /\ all_digits "2" = true /\
  ensureApiV1 ("https://api.example.com" ++ "/api/v" ++ "2") = "https://api.example.com" ++ "/api/v" ++ "2" /\
  ensureApiV1 ("https://api.example.com" ++ "/api/v" ++ "2" ++ "/") = "https://api.example.com" ++ "/api/v" ++ "2".
Proof.
  split; [discriminate|]. split; [reflexivity|].
  apply ensureApiV1_keeps_version; [discriminate | reflexivity].
Defined.


(** Only one trailing slash is stripped: a base URL ending in [//] gets
    [/api/v1] appended after the remaining slash, giving [...//api/v1]. *)
Theorem ensureApiV1_double_slash (b : string) :
  ensureApiV1 (b ++ "//") = b ++ "//api/v1".
Proof.
  unfold ensureApiV1.
  replace (b ++ "//") with ((b ++ "/") ++ String "/" "") by (now rewrite string_app_assoc).
  rewrite strip_trailing_slash_last. change (Ascii.eqb "/" "/") with true. cbv iota.
  destruct (api_version_test (b ++ "/")) eqn:Ht.
  - exfalso. destruct (api_version_test_last _ Ht) as [p [c [Heq Hc]]].
    apply string_app_last_inj in Heq as [_ <-]. discriminate.
  - rewrite string_app_assoc. reflexivity.
Qed.

(** ** The reward points block *)

Lemma string_app_nil_r (a : string) : a ++ "" = a.
Proof. induction a as [|x a IH]; simpl; [reflexivity | now rewrite IH]. Qed.

Lemma string_length_app (a b : string) : String.length (a ++ b) = (String.length a + String.length b)%nat.
Proof. induction a as [|x a IH]; simpl; [reflexivity | now rewrite IH]. Qed.

Lemma take_digits_decomp (n : nat) (s d r : string) :
  take_digits n s = (d, r) -> s = d ++ r /\ all_digits d = true.
Proof.
  revert s d r; induction n as [|n IH]; intros s d r H; simpl in H.
  - inversion H; subst. split; reflexivity.
  - destruct s as [|c s']; [inversion H; subst; split; reflexivity|].
    destruct (is_digit c) eqn:Hc; [|inversion H; subst; split; reflexivity].
    destruct (take_digits n s') as [d' r'] eqn:Ht. inversion H; subst.
    destruct (IH _ _ _ Ht) as [-> Hd]. simpl. rewrite Hc, Hd. split; reflexivity.
Qed.

Lemma comma_groups_decomp (s g r : string) :
  comma_groups s = (g, r) -> s = g ++ r.
Proof.
  revert g r. induction s as [s IH] using (well_founded_induction
     (Wf_nat.well_founded_ltof _ String.length)).
  intros g r H. destruct s as [|c [|d1 [|d2 [|d3 s']]]]; simpl in H;
    try (inversion H; subst; reflexivity).
  destruct (Ascii.eqb c "," && is_digit d1 && is_digit d2 && is_digit d3);
    [|inversion H; subst; reflexivity].
  destruct (comma_groups s') as [g' r'] eqn:Hg. inversion H; subst.
  rewrite (IH s' ltac:(unfold Wf_nat.ltof; simpl; lia) g' r Hg). reflexivity.
Qed.

Lemma digit_run_decomp (s d r : string) : digit_run s = (d, r) -> s = d ++ r.
Proof.
  revert d r; induction s as [|c s IH]; intros d r H; simpl in H.
  - inversion H; subst; reflexivity.
  - destruct (is_digit c); [|inversion H; subst; reflexivity].
    destruct (digit_run s) as [d' r'] eqn:Hd. inversion H; subst.
    rewrite (IH _ _ eq_refl). reflexivity.
Qed.

Lemma points_match_at_decomp (s m r : string) :
  points_match_at s = Some (m, r) -> s = m ++ r /\ m <> "".
Proof.
  unfold points_match_at. destruct (take_digits 3 s) as [lead r0] eqn:Ht.
  destruct (String.eqb_spec lead "") as [Hl|Hl].
  - destruct (digit_run s) as [run r1] eqn:Hd.
    destruct (String.eqb_spec run "") as [Hr|Hr]; [discriminate|].
    intros H; inversion H; subst. split; [exact (digit_run_decomp _ _ _ Hd) | exact Hr].
  - destruct (comma_groups r0) as [g r1] eqn:Hg. intros H; inversion H; subst.
    destruct (take_digits_decomp _ _ _ _ Ht) as [-> _].
    rewrite (comma_groups_decomp _ _ _ Hg), string_app_assoc. split; [reflexivity|].
    intros E. destruct lead; [contradiction | discriminate].
Qed.

Lemma match_all_fuel (f g : nat) (s : string) :
  (String.length s <= f)%nat -> (String.length s <= g)%nat -> match_all f s = match_all g s.
Proof.
  revert g s; induction f as [|f IH]; intros g s Hf Hg.
  - destruct s; [destruct g; reflexivity | simpl in Hf; lia].
  - destruct s as [|c s']; [destruct g; reflexivity|].
    destruct g as [|g]; [simpl in Hg; lia|]. simpl.
    destruct (points_match_at (String c s')) as [[m r]|] eqn:Hp.
    + destruct (points_match_at_decomp _ _ _ Hp) as [Heq Hm].
      assert (String.length (String c s') = (String.length m + String.length r)%nat)
        by (rewrite Heq; apply string_length_app).
      destruct m; [contradiction|]. simpl in *.
      f_equal. apply IH; lia.
    + simpl in Hf, Hg. apply IH; lia.
Qed.

Lemma reward_matches_cons (c : ascii) (s : string) :
  reward_matches (String c s) =
  match points_match_at (String c s) with
  | Some (m, r) => m :: reward_matches r
  | None => reward_matches s
  end.
Proof.
  unfold reward_matches at 1. simpl.
  destruct (points_match_at (String c s)) as [[m r]|] eqn:Hp; [|reflexivity].
  destruct (points_match_at_decomp _ _ _ Hp) as [Heq Hm].
  assert (String.length (String c s) = (String.length m + String.length r)%nat)
    by (rewrite Heq; apply string_length_app).
  destruct m; [contradiction|]. simpl in *.
  f_equal. unfold reward_matches. apply match_all_fuel; lia.
Qed.

Lemma take_digits_nondigit (n : nat) (c : ascii) (s : string) :
  is_digit c = false -> take_digits n (String c s) = ("", String c s).
Proof. intros H. destruct n; simpl; [reflexivity | now rewrite H]. Qed.

Lemma digit_run_nondigit (c : ascii) (s : string) :
  is_digit c = false -> digit_run (String c s) = ("", String c s).
Proof. intros H. simpl. now rewrite H. Qed.

Lemma points_match_at_nondigit (c : ascii) (s : string) :
  is_digit c = false -> points_match_at (String c s) = None.
Proof.
  intros H. unfold points_match_at. rewrite take_digits_nondigit by exact H.
  simpl String.eqb. cbv iota beta. rewrite digit_run_nondigit by exact H. reflexivity.
Qed.

Lemma reward_matches_no_digit_prefix (pre r : string) :
  no_digit pre = true -> reward_matches (pre ++ r) = reward_matches r.
Proof.
  induction pre as [|c pre IH]; intros H; [reflexivity|].
  simpl in H. apply andb_true_iff in H as [Hc Hp]. apply negb_true_iff in Hc.
  change (String c pre ++ r) with (String c (pre ++ r)).
  rewrite reward_matches_cons, points_match_at_nondigit by exact Hc. now apply IH.
Qed.

Lemma reward_matches_no_digit (s : string) : no_digit s = true -> reward_matches s = [].
Proof.
  intros H. rewrite <- (string_app_nil_r s), reward_matches_no_digit_prefix by exact H.
  reflexivity.
Qed.

Lemma is_digit_not_comma (c : ascii) : is_digit c = true -> Ascii.eqb c "," = false.
Proof. intros H. destruct (Ascii.eqb_spec c ",") as [->|]; [discriminate | reflexivity]. Qed.

Lemma comma_groups_digit (c : ascii) (s : string) :
  is_digit c = true -> comma_groups (String c s) = ("", String c s).
Proof.
  intros H. destruct s as [|d1 [|d2 [|d3 s']]]; try reflexivity.
  simpl. rewrite (is_digit_not_comma c H). reflexivity.
Qed.

Lemma comma_groups_no_digit (s : string) : no_digit s = true -> comma_groups s = ("", s).
Proof.
  intros H. destruct s as [|c [|d1 [|d2 [|d3 s']]]]; try reflexivity.
  simpl in H. simpl.
  destruct (is_digit d1); [rewrite andb_false_r in H; discriminate|].
  rewrite andb_false_r. reflexivity.
Qed.

Lemma take_digits_short (n : nat) (ds post : string) :
  all_digits ds = true -> (String.length ds <= n)%nat -> no_digit post = true ->
  take_digits n (ds ++ post) = (ds, post).
Proof.
  revert n; induction ds as [|c ds IH]; intros n Hd Hl Hp.
  - destruct post as [|c post]; [destruct n; reflexivity|].
    simpl in Hp. apply andb_true_iff in Hp as [Hc _]. apply negb_true_iff in Hc.
    apply take_digits_nondigit; exact Hc.
  - simpl in Hd. apply andb_true_iff in Hd as [Hc Hd].
    destruct n as [|n]; [simpl in Hl; lia|].
    simpl. rewrite Hc, IH by (simpl in Hl; lia || assumption). reflexivity.
Qed.

Lemma last_opt_cons {A} (x : A) (l : list A) (p : A) :
  last_opt l = Some p -> last_opt (x :: l) = Some p.
Proof. destruct l; [discriminate | intros H; exact H]. Qed.

Lemma reward_matches_digit_chunks (n : nat) :
  forall ds post, String.length ds = n -> all_digits ds = true -> ds <> "" ->
  no_digit post = true ->
  exists q p, ds = q ++ p /\ String.length p = S ((n - 1) mod 3) /\
    last_opt (reward_matches (ds ++ post)) = Some p.
Proof.
  induction n as [n IH] using (well_founded_induction Wf_nat.lt_wf).
  intros ds post Hn Hd Hne Hp.
  destruct (Nat.le_gt_cases n 3) as [Hs|Hb].
  - exists "", ds. split; [reflexivity|]. split.
    + destruct ds as [|c ds]; [contradiction|]. simpl in Hn.
      destruct n as [|[|[|[|n]]]]; simpl; lia.
    + destruct ds as [|c ds0] eqn:Eds; [contradiction|].
      change (String c ds0 ++ post) with (String c (ds0 ++ post)).
      rewrite reward_matches_cons.
      unfold points_match_at.
      change (String c (ds0 ++ post)) with (String c ds0 ++ post).
      rewrite take_digits_short by (assumption || lia).
      simpl String.eqb. cbv iota beta.
      rewrite comma_groups_no_digit by exact Hp.
      rewrite reward_matches_no_digit by exact Hp. rewrite string_app_nil_r. reflexivity.
  - destruct ds as [|a [|b [|c [|d ds']]]]; simpl in Hn; try lia.
    simpl in Hd. apply andb_true_iff in Hd as [Ha Hd]. apply andb_true_iff in Hd as [Hb' Hd].
    apply andb_true_iff in Hd as [Hc Hd].
    assert (Hd0 : is_digit d = true) by (simpl in Hd; apply andb_true_iff in Hd; tauto).
    destruct (IH (n - 3)%nat ltac:(lia) (String d ds') post ltac:(simpl; lia) Hd
                ltac:(discriminate) Hp) as [q [p [Hq [Hlp Hlast]]]].
    exists (String a (String b (String c q))), p. split; [rewrite Hq; reflexivity|]. split.
    + rewrite Hlp. f_equal.
      replace (n - 1)%nat with ((n - 3 - 1) + 1 * 3)%nat by lia.
      symmetry. apply Nat.Div0.mod_add.
    + change (String a (String b (String c (String d ds'))) ++ post)
        with (String a (String b (String c (String d ds' ++ post)))).
      rewrite reward_matches_cons. unfold points_match_at at 1. simpl take_digits.
      rewrite Ha, Hb', Hc. simpl String.eqb. cbv iota beta.
      rewrite comma_groups_digit by exact Hd0. simpl append.
      apply last_opt_cons. exact Hlast.
Qed.

(** The reward points line shows only the last comma group of a digit run:
    for a text whose only digits form one run of [n] digits (the text
    around it has no digit), the block shows the last [((n - 1) mod 3) + 1]
    digits of the run, not the whole number. *)
Theorem reward_points_last_group (pre ds post : string) :
  no_digit pre = true -> ds <> "" -> all_digits ds = true -> no_digit post = true ->
  exists q p, ds = q ++ p /\ String.length p = S ((String.length ds - 1) mod 3) /\
    reward_block (pre ++ ds ++ post) = RewardPoints p.
Proof.
  intros Hpre Hne Hd Hpost.
  destruct (reward_matches_digit_chunks (String.length ds) ds post eq_refl Hd Hne Hpost)
    as [q [p [Hq [Hlp Hlast]]]].
  exists q, p. split; [exact Hq|]. split; [exact Hlp|].
  unfold reward_block. rewrite reward_matches_no_digit_prefix by exact Hpre.
  rewrite Hlast. destruct (String.eqb_spec p "") as [->|]; [simpl in Hlp; discriminate|].
  reflexivity.
Qed.

Lemma reward_points_last_group_witness :
  no_digit "You have " = true /\ "12345" <> "" /\ all_digits "12345" = true /\
  no_digit " points" = true /\
  exists q p, "12345" = q ++ p /\ String.length p = S ((String.length "12345" - 1) mod 3) /\
    reward_block ("You have " ++ "12345" ++ " points") = RewardPoints p.
Proof.
  split; [reflexivity|]. split; [discriminate|]. split; [reflexivity|]. split; [reflexivity|].
  apply reward_points_last_group; [reflexivity | discriminate | reflexivity | reflexivity].
Defined.

Lemma digits_commas_app (a b : string) :
  digits_commas (a ++ b) = digits_commas a && digits_commas b.
Proof. induction a as [|c a IH]; simpl; [reflexivity|]. rewrite IH. apply andb_assoc. Qed.

Lemma all_digits_digits_commas (s : string) : all_digits s = true -> digits_commas s = true.
Proof.
  induction s as [|c s IH]; simpl; [reflexivity|].
  intros H. apply andb_true_iff in H as [Hc Hs]. rewrite Hc, IH by exact Hs. reflexivity.
Qed.

Lemma ends_digit_app (a b : string) :
  (exists q d, b = q ++ String d "" /\ is_digit d = true) ->
  exists q d, a ++ b = q ++ String d "" /\ is_digit d = true.
Proof.
  intros [q [d [-> Hd]]]. exists (a ++ q), d. split; [symmetry; apply string_app_assoc | exact Hd].
Qed.

Lemma comma_groups_shape (s g r : string) :
  comma_groups s = (g, r) ->
  digits_commas g = true /\ (g = "" \/ exists q d, g = q ++ String d "" /\ is_digit d = true).
Proof.
  revert g r. induction s as [s IH] using (well_founded_induction
     (Wf_nat.well_founded_ltof _ String.length)).
  intros g r H. destruct s as [|c [|d1 [|d2 [|d3 s']]]]; simpl in H;
    try (inversion H; subst; split; [reflexivity | now left]).
  destruct (Ascii.eqb c "," && is_digit d1 && is_digit d2 && is_digit d3) eqn:Hc;
    [|inversion H; subst; split; [reflexivity | now left]].
  apply andb_true_iff in Hc as [Hc Hd3]. apply andb_true_iff in Hc as [Hc Hd2].
  apply andb_true_iff in Hc as [Hc Hd1].
  destruct (comma_groups s') as [g' r'] eqn:Hg. inversion H; subst.
  destruct (IH s' ltac:(unfold Wf_nat.ltof; simpl; lia) g' r Hg) as [Hdc Hend].
  split.
  - simpl. rewrite Hc, Hd1, Hd2, Hd3, Hdc, !orb_true_r. reflexivity.
  - right. destruct Hend as [->|Hend].
    + exists (String c (String d1 (String d2 ""))), d3. split; [reflexivity | exact Hd3].
    + destruct Hend as [q [d [-> Hd]]].
      exists (String c (String d1 (String d2 (String d3 q)))), d. split; [reflexivity | exact Hd].
Qed.

Lemma nonempty_digits_shape (d : string) :
  d <> "" -> all_digits d = true ->
  (exists c m', d = String c m' /\ is_digit c = true) /\
  (exists q e, d = q ++ String e "" /\ is_digit e = true).
Proof.
  intros Hne Hd. split.
  - destruct d as [|c m']; [contradiction|]. simpl in Hd.
    apply andb_true_iff in Hd as [Hc _]. exists c, m'. auto.
  - apply digits_to_end_last. unfold digits_to_end. rewrite Hd.
    destruct (String.eqb_spec d ""); [contradiction | reflexivity].
Qed.

Lemma points_match_at_token (s m r : string) :
  points_match_at s = Some (m, r) -> points_token m.
Proof.
  unfold points_match_at. destruct (take_digits 3 s) as [lead r0] eqn:Ht.
  destruct (take_digits_decomp _ _ _ _ Ht) as [_ Hlead].
  destruct (String.eqb_spec lead "") as [Hl|Hl].
  - destruct (digit_run s) as [run r1] eqn:Hd.
    destruct (String.eqb_spec run "") as [Hr|Hr]; [discriminate|].
    intros H; inversion H; subst m r.
    assert (Hrun : all_digits run = true).
    { clear -Hd. revert run r1 Hd. induction s as [|c s IH]; intros run r1 Hd; simpl in Hd.
      - inversion Hd; reflexivity.
      - destruct (is_digit c) eqn:Hc; [|inversion Hd; reflexivity].
        destruct (digit_run s) as [d' r'] eqn:E. inversion Hd; subst.
        simpl. rewrite Hc. exact (IH _ _ eq_refl). }
    destruct (nonempty_digits_shape run Hr Hrun) as [Hst Hen].
    split; [now apply all_digits_digits_commas|]. split; assumption.
  - destruct (comma_groups r0) as [g r1] eqn:Hg. intros H; inversion H; subst m r.
    destruct (comma_groups_shape _ _ _ Hg) as [Hgdc Hgend].
    destruct (nonempty_digits_shape lead Hl Hlead) as [[c [m' [Hc1 Hc2]]] Hen].
    split; [rewrite digits_commas_app, all_digits_digits_commas, Hgdc by exact Hlead; reflexivity|].
    split.
    + exists c, (m' ++ g). rewrite Hc1. split; [reflexivity | exact Hc2].
    + destruct Hgend as [->|Hgend]; [rewrite string_app_nil_r; exact Hen|].
      now apply ends_digit_app.
Qed.

Lemma reward_matches_tokens (s : string) :
  forall m, In m (reward_matches s) -> (exists a b, s = a ++ m ++ b) /\ points_token m.
Proof.
  induction s as [s IH] using (well_founded_induction (Wf_nat.well_founded_ltof _ String.length)).
  destruct s as [|c s']; [intros m []|].
  rewrite reward_matches_cons. intros m Hm.
  destruct (points_match_at (String c s')) as [[m0 r]|] eqn:Hp.
  - destruct (points_match_at_decomp _ _ _ Hp) as [Heq Hne].
    destruct Hm as [<-|Hm].
    + split; [exists "", r; exact Heq | exact (points_match_at_token _ _ _ Hp)].
    + assert (Hlt : (String.length r < String.length (String c s'))%nat).
      { rewrite Heq, string_length_app. destruct m0; [contradiction|]. simpl; lia. }
      destruct (IH r Hlt m Hm) as [[a [b Hab]] Htok]. split; [|exact Htok].
      exists (m0 ++ a), b. rewrite Heq, Hab, string_app_assoc. reflexivity.
  - destruct (IH s' ltac:(unfold Wf_nat.ltof; simpl; lia) m Hm) as [[a [b Hab]] Htok].
    split; [|exact Htok]. exists (String c a), b. rewrite Hab. reflexivity.
Qed.

Lemma take_digits_digit (n : nat) (c : ascii) (s : string) :
  is_digit c = true -> exists d r, take_digits (S n) (String c s) = (String c d, r).
Proof.
  intros Hc. simpl. rewrite Hc. destruct (take_digits n s) as [d r]. exists d, r. reflexivity.
Qed.

Lemma reward_matches_nonempty (s : string) :
  no_digit s = false -> reward_matches s <> [].
Proof.
  induction s as [|c s IH]; [discriminate|]. intros H.
  rewrite reward_matches_cons.
  destruct (points_match_at (String c s)) as [[m r]|] eqn:Hp; [discriminate|].
  simpl in H. destruct (is_digit c) eqn:Hc.
  - exfalso. unfold points_match_at in Hp.
    destruct (take_digits_digit 2 c s Hc) as [d [r0 Ht]]. rewrite Ht in Hp.
    simpl String.eqb in Hp. cbv iota beta in Hp.
    destruct (comma_groups r0); discriminate.
  - apply IH. exact H.
Qed.

Lemma last_opt_in {A} (l : list A) (p : A) : last_opt l = Some p -> In p l.
Proof.
  induction l as [|x l IH]; [discriminate|]. destruct l as [|y l'].
  - intros H; inversion H; now left.
  - intros H. right. apply IH. exact H.
Qed.

Lemma last_opt_nonempty {A} (l : list A) : l <> [] -> exists p, last_opt l = Some p.
Proof.
  induction l as [|x l IH]; [contradiction|]. intros _. destruct l as [|y l'].
  - exists x. reflexivity.
  - apply IH. discriminate.
Qed.

(** The reward block shows points exactly when the raw text has a digit; the
    points shown are a substring of the text made of digits and commas,
    starting and ending with a digit; with no digit it shows the first 140
    characters of the text, with an ellipsis exactly when it is longer. *)
Theorem reward_block_shape (raw : string) :
  (no_digit raw = false -> exists p, reward_block raw = RewardPoints p) /\
  (forall p, reward_block raw = RewardPoints p ->
     (exists a b, raw = a ++ p ++ b) /\ points_token p) /\
  (no_digit raw = true ->
     reward_block raw =
       if (140 <? String.length raw)%nat then RewardSnippet (substring 0 140 raw) true
       else RewardSnippet raw false).
Proof.
  split; [|split].
  - intros H. destruct (last_opt_nonempty _ (reward_matches_nonempty raw H)) as [p Hp].
    unfold reward_block. rewrite Hp.
    destruct (reward_matches_tokens raw p (last_opt_in _ _ Hp)) as [_ [_ [[c [m' [-> _]]] _]]].
    exists (String c m'). reflexivity.
  - intros p. unfold reward_block.
    destruct (last_opt (reward_matches raw)) as [p0|] eqn:Hp.
    + destruct (String.eqb p0 "");
        [destruct (140 <? String.length raw)%nat; discriminate|].
      intros H; inversion H; subst p0. exact (reward_matches_tokens raw p (last_opt_in _ _ Hp)).
    + destruct (140 <? String.length raw)%nat; discriminate.
  - intros H. unfold reward_block. rewrite reward_matches_no_digit by exact H. reflexivity.
Qed.

(** ** Looking up saved statements *)

Lemma find_In_some {A} (f : A -> bool) (l : list A) (x : A) :
  In x l -> f x = true -> exists y, find f l = Some y.
Proof.
  induction l as [|z l IH]; intros Hx Hf; [destruct Hx|]. simpl.
  destruct (f z) eqn:Hz; [now exists z|].
  destruct Hx as [<-|Hx]; [congruence | now apply IH].
Qed.

Lemma find_replace_first {A} (p : A -> bool) (l : list A) (i : nat) (x : A) :
  findIndex p l = Some i -> p x = true -> find p (replace_nth i x l) = Some x.
Proof.
  revert i; induction l as [|y l IH]; intros i Hi Hx; simpl in Hi; [discriminate|].
  destruct (p y) eqn:Hy.
  - inversion Hi; subst i. simpl. now rewrite Hx.
  - destruct (findIndex p l) as [j|] eqn:Hj; simpl in Hi; [|discriminate].
    inversion Hi; subst i. simpl. rewrite Hy. now apply IH.
Qed.

Lemma in_replace_nth_inv {A} (l : list A) (i : nat) (x z : A) :
  In z (replace_nth i x l) -> z = x \/ In z l.
Proof.
  revert i; induction l as [|y l IH]; intros [|i] H; simpl in *; try tauto.
  - destruct H as [<-|H]; [now left | right; now right].
  - destruct H as [<-|H]; [right; now left|]. destruct (IH i H); [now left | right; now right].
Qed.

Lemma same_job_by_job_id (st : ParseResult) : same_job st = by_job_id (job_id st).
Proof. reflexivity. Qed.

Lemma find_upsert_self (st : ParseResult) (l : list ParseResult) :
  find (by_job_id (job_id st)) (upsert st l) = Some st.
Proof.
  unfold upsert. rewrite same_job_by_job_id.
  destruct (findIndex (by_job_id (job_id st)) l) as [i|] eqn:Hi.
  - apply find_replace_first; [exact Hi | apply String.eqb_refl].
  - simpl. unfold by_job_id at 1. now rewrite String.eqb_refl.
Qed.

Lemma find_upsert_other (id : string) (st : ParseResult) (l : list ParseResult) :
  job_id st <> id -> find (by_job_id id) l = None -> find (by_job_id id) (upsert st l) = None.
Proof.
  intros Hne Hl. pose proof (find_none _ _ Hl) as Hno.
  destruct (find (by_job_id id) (upsert st l)) as [y|] eqn:Hy; [|reflexivity].
  apply find_some in Hy as [Hin Hb]. exfalso.
  assert (Hin' : y = st \/ In y l).
  { unfold upsert in Hin. destruct (findIndex (same_job st) l) as [i|].
    - now apply in_replace_nth_inv in Hin.
    - destruct Hin as [<-|Hin]; [now left | now right]. }
  destruct Hin' as [->|Hin'].
  - unfold by_job_id in Hb. apply String.eqb_eq in Hb. congruence.
  - rewrite (Hno y Hin') in Hb. discriminate.
Qed.

Lemma cached_list_add (st : ParseResult) (now : Z) (s : store) :
  store_ok s = true ->
  exists loc, cache_data (addStatementToCache st now s) = Some loc /\
    read (addStatementToCache st now s) loc =
      upsert st (match cache_data s with Some l => read s l | None => [] end) /\
    store_ok (addStatementToCache st now s) = true /\
    heap (addStatementToCache st now s) =
      match cache_data s with
      | Some l => replace_nth l (upsert st (read s l)) (heap s)
      | None => (heap s ++ [[st]])%list
      end.
Proof.
  unfold store_ok. intros Hok. apply andb_true_iff in Hok as [H1 H2].
  unfold addStatementToCache. destruct (cache_data s) as [loc|] eqn:Hc.
  - apply Nat.ltb_lt in H2. exists loc. split; [reflexivity|].
    split; [unfold read, write; simpl; now apply nth_replace_nth_same|].
    split; [|reflexivity]. simpl. rewrite length_replace_nth.
    apply andb_true_iff; split; [exact H1 | now apply Nat.ltb_lt].
  - exists (length (heap s)). simpl. split; [reflexivity|].
    split; [unfold read; simpl; now rewrite nth_middle|].
    split; [|reflexivity]. unfold store_ok; simpl. rewrite length_app. simpl.
    rewrite Nat.add_1_r. apply Nat.ltb_lt. lia.
Qed.

Lemma find_job_id (id : string) (l : list ParseResult) (st : ParseResult) :
  find (by_job_id id) l = Some st -> job_id st = id /\ In st l.
Proof.
  intros H. apply find_some in H as [Hin Hb]. split; [|exact Hin].
  now apply String.eqb_eq.
Qed.

Lemma find_job_id_in (id : string) (l : list ParseResult) :
  In id (map job_id l) -> exists st, find (by_job_id id) l = Some st /\ job_id st = id.
Proof.
  intros Hin. apply in_map_iff in Hin as [x [Hx Hxl]].
  destruct (find_In_some (by_job_id id) l x Hxl) as [y Hy];
    [unfold by_job_id; rewrite Hx; apply String.eqb_refl|].
  exists y. split; [exact Hy | now apply find_job_id in Hy as [Hy _]].
Qed.

(** [getSavedStatementById] answers from the cache whatever its age: after a
    refresh at [t0], once [CACHE_TTL] has passed the list request is issued
    again, but looking up a statement of the cached list still makes no
    request and returns a cached entry with that job id. *)
Theorem lookup_ignores_cache_age (rt : runtime) (t0 t : Z)
    (resp0 resp1 resp2 : http_response) (s : store) (id : string) :
  (t0 + CACHE_TTL <= t)%Z ->
  let '(s1, _, p) := getAllSavedStatements rt true t0 resp0 s in
  forall loc, p = Resolved loc -> In id (map job_id (read s1 loc)) ->
  snd (fst (getAllSavedStatements rt false t resp1 s1)) = true /\
  exists st, getSavedStatementById rt id t resp2 s1 = (s1, false, Resolved (Some st)) /\
             job_id st = id.
Proof.
  intros Ht.
  assert (Hreq : forall s1 loc, cache_data s1 = Some loc -> cache_ts s1 = t0 ->
    In id (map job_id (read s1 loc)) ->
    snd (fst (getAllSavedStatements rt false t resp1 s1)) = true /\
    exists st, getSavedStatementById rt id t resp2 s1 = (s1, false, Resolved (Some st)) /\
               job_id st = id).
  { intros s1 loc Hc Hts Hin. split.
    - unfold getAllSavedStatements. rewrite Hc, Hts.
      replace (negb false && (t - t0 <? CACHE_TTL)%Z) with false
        by (symmetry; apply andb_false_iff; right; apply Z.ltb_ge; lia).
      destruct resp1; [cbv zeta; destruct (alloc s1 _)|]; reflexivity.
    - destruct (find_job_id_in id (read s1 loc) Hin) as [st [Hf Hid]].
      exists st. split; [|exact Hid]. unfold getSavedStatementById. rewrite Hc, Hf. reflexivity. }
  unfold getAllSavedStatements.
  destruct (cache_data s); simpl; destruct resp0 as [data|m]; simpl;
    intros loc Hp; inversion Hp; subst loc; apply Hreq; reflexivity.
Qed.

Lemma lookup_ignores_cache_age_witness :
  (0 + CACHE_TTL <= 10000)%Z /\
  let '(s1, _, p) := getAllSavedStatements sample_runtime true 0 (HttpErr "Network Error")
                       (init_store sample_runtime 0) in
  forall loc, p = Resolved loc -> In "job_1" (map job_id (read s1 loc)) ->
  snd (fst (getAllSavedStatements sample_runtime false 10000 (HttpErr "Network Error") s1)) = true /\
  exists st, getSavedStatementById sample_runtime "job_1" 10000 (HttpErr "Network Error") s1
             = (s1, false, Resolved (Some st)) /\ job_id st = "job_1".
Proof.
  split; [unfold CACHE_TTL; lia|].
  apply lookup_ignores_cache_age. unfold CACHE_TTL; lia.
Defined.

(** A cache miss followed by a successful request caches the mapped
    statement: it is returned, the cache is stamped with the time, and a
    later lookup of its job id is answered from the cache.  When the mapped
    job id differs from the id asked for, that id still misses, and every
    later lookup of it requests again. *)
Theorem getSavedStatementById_fetch_then_cached (rt : runtime) (id : string) (now now' : Z)
    (data : jval) (resp' : http_response) (s : store) :
  store_ok s = true ->
  match cache_data s with Some loc => find (by_job_id id) (read s loc) | None => None end = None ->
  let mapped := mapDbToParseResult rt (rt_iso rt now) data in
  let '(s1, req1, p1) := getSavedStatementById rt id now (HttpOk data) s in
  req1 = true /\ p1 = Resolved (Some mapped) /\ cache_ts s1 = now /\
  getSavedStatementById rt (job_id mapped) now' resp' s1 = (s1, false, Resolved (Some mapped)) /\
  (job_id mapped <> id -> snd (fst (getSavedStatementById rt id now' resp' s1)) = true).
Proof.
  intros Hok Hmiss mapped. unfold getSavedStatementById at 1. rewrite Hmiss.
  fold mapped.
  destruct (cached_list_add mapped now s Hok) as (loc & Hc & Hr & _ & _).
  split; [reflexivity|]. split; [reflexivity|].
  split; [unfold addStatementToCache; destruct (cache_data s); [reflexivity | destruct (alloc s [mapped]); reflexivity]|].
  split.
  - unfold getSavedStatementById. rewrite Hc, Hr, find_upsert_self. reflexivity.
  - intros Hne. unfold getSavedStatementById. rewrite Hc, Hr, find_upsert_other;
      [destruct resp'; [cbv zeta|]; reflexivity | exact Hne|].
    destruct (cache_data s); [exact Hmiss | reflexivity].
Qed.

Lemma getSavedStatementById_fetch_then_cached_witness :
  store_ok (init_store sample_runtime 0) = true /\
  let mapped := mapDbToParseResult sample_runtime (rt_iso sample_runtime 5)
                  (JObj [("_id", JStr "abc")]) in
  let '(s1, req1, p1) := getSavedStatementById sample_runtime "job_9" 5
                           (HttpOk (JObj [("_id", JStr "abc")])) (init_store sample_runtime 0) in
  req1 = true /\ p1 = Resolved (Some mapped) /\ cache_ts s1 = 5%Z /\
  getSavedStatementById sample_runtime (job_id mapped) 7 (HttpErr "e") s1
    = (s1, false, Resolved (Some mapped)) /\
  (job_id mapped <> "job_9" ->
   snd (fst (getSavedStatementById sample_runtime "job_9" 7 (HttpErr "e") s1)) = true).
Proof.
  split; [reflexivity|].
  apply (getSavedStatementById_fetch_then_cached sample_runtime "job_9" 5 7); reflexivity.
Defined.

(** When the request fails on a cache miss, [getSavedStatementById] leaves
    the store unchanged and answers from the [MOCK_STATEMENTS] array as it
    stands in the store: a statement of that array carrying the id asked for,
    and [null] exactly when no entry of the array has that id.  From the
    module's initial state, that is a statement exactly for the ids [job_1]
    to [job_5]. *)
Theorem getSavedStatementById_offline (rt : runtime) (load_ms now : Z) (id msg : string) :
  (forall s,
     (forall loc, cache_data s = Some loc -> ~ In id (map job_id (read s loc))) ->
     let '(s1, req, p) := getSavedStatementById rt id now (HttpErr msg) s in
     s1 = s /\ req = true /\
     (forall st, p = Resolved (Some st) -> job_id st = id /\ In st (read s MOCK_LOC)) /\
     (p = Resolved None <-> ~ In id (map job_id (read s MOCK_LOC)))) /\
  (forall loc, cache_data (init_store rt load_ms) = Some loc -> ~ In id (map job_id (read (init_store rt load_ms) loc))) /\
  map job_id (read (init_store rt load_ms) MOCK_LOC) = ["job_1"; "job_2"; "job_3"; "job_4"; "job_5"].
Proof.
  split; [|split; [intros loc Hc; discriminate Hc | reflexivity]].
  intros s Hmiss. unfold getSavedStatementById.
  assert (Hc : match cache_data s with
               | Some loc => find (by_job_id id) (read s loc)
               | None => None
               end = None).
  { destruct (cache_data s) as [loc|] eqn:E; [|reflexivity].
    destruct (find (by_job_id id) (read s loc)) as [st|] eqn:Hf; [|reflexivity].
    exfalso. apply find_job_id in Hf as [Hid Hin]. apply (Hmiss loc eq_refl).
    subst id. now apply in_map. }
  rewrite Hc.
  split; [reflexivity|]. split; [reflexivity|]. split.
  - intros st Hst. inversion Hst as [Hf]. now apply find_job_id.
  - split.
    + intros Hp Hin. apply find_job_id_in in Hin as [st [Hf _]]. rewrite Hf in Hp. discriminate.
    + intros Hnin. destruct (find (by_job_id id) (read s MOCK_LOC)) as [st|] eqn:Hf;
        [|reflexivity].
      exfalso. apply find_job_id in Hf as [Hid Hin]. apply Hnin. subst id. now apply in_map.
Qed.

(** The statement detail page never shows its error block: its
    [fetchStatement] catches nothing, since [getSavedStatementById] never
    rejects.  It shows "not found" only when the request failed and the id is
    not in the [MOCK_STATEMENTS] array, and any statement it shows carries
    the id of the URL unless it is the one the request returned. *)
Theorem statement_detail_outcomes (rt : runtime) (id : string) (now : Z)
    (resp : http_response) (s : store) :
  let '(_, v) := statement_detail rt id now resp s in
  v <> DetailError /\ v <> DetailLoading /\
  (v = DetailNotFound ->
     (exists m, resp = HttpErr m) /\ ~ In id (map job_id (read s MOCK_LOC))) /\
  (forall st, v = DetailShown st ->
     job_id st = id \/
     exists data, resp = HttpOk data /\ st = mapDbToParseResult rt (rt_iso rt now) data).
Proof.
  unfold statement_detail, getSavedStatementById.
  destruct (match cache_data s with Some loc => find (by_job_id id) (read s loc) | None => None end)
    as [st|] eqn:Hc.
  - split; [discriminate|]. split; [discriminate|]. split; [discriminate|].
    intros st' Hst. inversion Hst; subst st'. left.
    destruct (cache_data s); [now apply find_job_id in Hc as [Hid _] | discriminate].
  - destruct resp as [data|m].
    + split; [discriminate|]. split; [discriminate|]. split; [discriminate|].
      intros st Hst. inversion Hst; subst st. right. exists data. split; reflexivity.
    + destruct (find (by_job_id id) (read s MOCK_LOC)) as [st|] eqn:Hf.
      * split; [discriminate|]. split; [discriminate|]. split; [discriminate|].
        intros st' Hst. inversion Hst; subst st'. left. now apply find_job_id in Hf as [Hid _].
      * split; [discriminate|]. split; [discriminate|].
        split; [|intros st' Hst; discriminate].
        intros _. split; [now exists m|].
        intros Hin. apply find_job_id_in in Hin as [st [Hf' _]]. congruence.
Qed.

(** ** Rendering results and searching *)

Lemma substring_app_skip (p q : string) (m : nat) :
  substring (String.length p) m (p ++ q) = substring 0 m q.
Proof. induction p as [|c p IH]; simpl; [reflexivity | exact IH]. Qed.

Lemma substring_0_all (s : string) (m : nat) :
  (String.length s <= m)%nat -> substring 0 m s = s.
Proof.
  revert m; induction s as [|c s IH]; intros m Hm; simpl in *.
  - destruct m; reflexivity.
  - destruct m; [lia|]. f_equal. apply IH. lia.
Qed.


(** The card line of the summary tab shows the last four characters of a
    card number string (the whole string when it is shorter), the fixed text
    "Card ending in 9410" when there is no card number, which is also the line
    of any card number ending in 9410, and fails to render for a card number
    that is a non-zero number. *)
Theorem summary_card_line_cases (rt : runtime) (r : ParseResult) :
  (forall p l4, get (card_number r) "value" = JStr (p ++ l4) -> String.length l4 = 4%nat ->
     summary_card_line rt r = Some ("Card ending in " ++ l4)) /\
  (forall c, get (card_number r) "value" = JStr c -> c <> "" -> (String.length c <= 4)%nat ->
     summary_card_line rt r = Some ("Card ending in " ++ c)) /\
  (truthy (get (card_number r) "value") = false ->
     summary_card_line rt r = Some "Card ending in 9410") /\
  (forall q, get (card_number r) "value" = JNum q -> ~ q == 0 -> summary_card_line rt r = None).
Proof.
  unfold summary_card_line. split; [|split; [|split]].
  - intros p l4 Hv Hl. rewrite Hv. simpl.
    destruct (String.eqb_spec (p ++ l4) "") as [He|He].
    + exfalso. apply (f_equal String.length) in He. rewrite string_length_app in He.
      simpl in He. lia.
    + simpl. unfold slice_last4. rewrite string_length_app, Hl, Nat.add_sub.
      rewrite substring_app_skip, substring_0_all by lia. reflexivity.
  - intros c Hv Hne Hl. rewrite Hv. simpl.
    destruct (String.eqb_spec c "") as [He|_]; [contradiction|]. simpl.
    unfold slice_last4. replace (String.length c - 4)%nat with 0%nat by lia.
    rewrite substring_0_all by lia. reflexivity.
  - intros Hf. now rewrite Hf.
  - intros q Hv Hq. rewrite Hv. simpl.
    destruct (Qeq_bool q 0) eqn:E; [apply Qeq_bool_iff in E; contradiction | reflexivity].
Qed.

Lemma filter_statements_sublist (t : string) (l r : list ParseResult) :
  filter_statements t l = Some r -> forall st, In st r -> In st l /\ matches_search t st = Some true.
Proof.
  revert r; induction l as [|x l IH]; intros r H st Hin; simpl in H.
  - inversion H; subst r. destruct Hin.
  - destruct (matches_search t x) as [b|] eqn:Hm; [|discriminate].
    destruct (filter_statements t l) as [r'|] eqn:Hr; [|discriminate].
    inversion H; subst r. destruct b.
    + destruct Hin as [<-|Hin]; [split; [now left | exact Hm]|].
      destruct (IH r' eq_refl st Hin). split; [now right | assumption].
    + destruct (IH r' eq_refl st Hin). split; [now right | assumption].
Qed.

Lemma filter_statements_all_true (t : string) (r : list ParseResult) :
  (forall st, In st r -> matches_search t st = Some true) -> filter_statements t r = Some r.
Proof.
  induction r as [|x r IH]; intros H; simpl; [reflexivity|].
  rewrite (H x (or_introl eq_refl)), IH; [reflexivity|].
  intros st Hst. apply H. now right.
Qed.

Lemma js_includes_empty (s : string) : js_includes s "" = true.
Proof. destruct s; reflexivity. Qed.

(** The search of the saved statements page: filtering the filtered list
    again keeps it; the empty search keeps every statement whose
    [card_issuer] is a string, [null] or absent; and a single statement
    whose [card_issuer] is neither a string nor [null]/[undefined] (a
    number, a boolean, an object) makes the filter throw for every search
    term, the empty one included. *)
Theorem filter_statements_search (l : list ParseResult) :
  (forall t r, filter_statements t l = Some r -> filter_statements t r = Some r) /\
  ((forall st, In st l -> lower_or_empty (card_issuer st) <> None) ->
     filter_statements "" l = Some l) /\
  (forall st, In st l -> lower_or_empty (card_issuer st) = None ->
     forall t, filter_statements t l = None).
Proof.
  split; [|split].
  - intros t r H. apply filter_statements_all_true. intros st Hst.
    now apply (filter_statements_sublist t l r H).
  - intros H. apply filter_statements_all_true. intros st Hst.
    unfold matches_search, search_fields. simpl.
    destruct (lower_or_empty (card_issuer st)) as [s|] eqn:E; [|now destruct (H st Hst)].
    now rewrite js_includes_empty.
  - intros st Hst Hn t. induction l as [|x l IH]; [destruct Hst|]. simpl.
    destruct Hst as [->|Hst].
    + unfold matches_search at 1, search_fields. simpl. now rewrite Hn.
    + destruct (matches_search t x); [|reflexivity]. now rewrite (IH Hst).
Qed.

(** ** Pagination *)

Lemma totalPages_div (n : nat) : totalPages n = ((Z.of_nat n + 9) / 10)%Z.
Proof.
  unfold totalPages, itemsPerPage, Qceiling, Qfloor. simpl.
  rewrite Z.mul_1_r. Z.div_mod_to_equations. lia.
Qed.

Lemma paginate_page {A} (l : list A) (i : nat) :
  paginate l (Z.of_nat i + 1) = firstn 10 (skipn (10 * i) l).
Proof.
  unfold paginate, js_slice, itemsPerPage.
  replace ((Z.of_nat i + 1 - 1) * 10)%Z with (Z.of_nat (10 * i)) by lia.
  replace ((Z.of_nat i + 1) * 10)%Z with (Z.of_nat (10 * i + 10)) by lia.
  rewrite !(proj2 (Z.ltb_ge _ _)) by lia.
  destruct (Nat.le_gt_cases (10 * i) (length l)) as [Hle|Hgt].
  - rewrite (Z.min_l (Z.of_nat (10 * i))) by lia.
    destruct (Nat.le_gt_cases (10 * i + 10) (length l)) as [Hle'|Hgt'].
    + rewrite (Z.min_l (Z.of_nat (10 * i + 10))) by lia. rewrite <- Nat2Z.inj_sub by lia. rewrite !Nat2Z.id.
      f_equal. lia.
    + rewrite (Z.min_r (Z.of_nat (10 * i + 10))) by lia. rewrite Nat2Z.id.
      rewrite firstn_all2 by (rewrite length_skipn; lia).
      rewrite firstn_all2 by (rewrite length_skipn; lia). reflexivity.
  - rewrite !Z.min_r by lia. rewrite Z.sub_diag. simpl.
    rewrite skipn_all2 by lia. reflexivity.
Qed.

Lemma concat_pages {A} (m : nat) :
  forall l : list A, (length l <= 10 * m)%nat ->
  concat (map (fun i => firstn 10 (skipn (10 * i) l)) (seq 0 m)) = l.
Proof.
  induction m as [|m IH]; intros l Hl.
  - destruct l; [reflexivity | simpl in Hl; lia].
  - cbn [seq map concat]. rewrite Nat.mul_0_r. cbn [skipn].
    rewrite <- seq_shift, map_map.
    rewrite (map_ext (fun x => firstn 10 (skipn (10 * S x) l))
                     (fun x => firstn 10 (skipn (10 * x) (skipn 10 l)))).
    + rewrite IH by (rewrite length_skipn; lia). apply firstn_skipn.
    + intros x. rewrite skipn_skipn. f_equal. f_equal. lia.
Qed.

Lemma paginate_nat {A} (l : list A) (p : Z) :
  (1 <= p)%Z -> paginate l p = firstn 10 (skipn (10 * Z.to_nat (p - 1)) l).
Proof.
  intros Hp. rewrite <- paginate_page. f_equal. lia.
Qed.

(** Pagination of the saved statements page: [Math.ceil(n / 10)] pages,
    which together list every filtered statement once and in order; every
    page but the last holds exactly ten, pages past the last are empty, and
    the Previous and Next buttons keep the page within [1..totalPages]. *)
Theorem pagination_pages {A} (l : list A) :
  let T := totalPages (length l) in
  T = ((Z.of_nat (length l) + 9) / 10)%Z /\
  concat (map (fun i => paginate l (Z.of_nat i + 1)) (seq 0 (Z.to_nat T))) = l /\
  (forall p, (1 <= p < T)%Z -> length (paginate l p) = 10%nat) /\
  (forall p, (1 <= p)%Z -> (length (paginate l p) <= 10)%nat) /\
  (forall p, (T < p)%Z -> paginate l p = []) /\
  (forall p, (1 <= p <= T)%Z -> (1 <= prev_page p <= T)%Z /\ (1 <= next_page T p <= T)%Z).
Proof.
  cbv zeta. rewrite totalPages_div.
  split; [reflexivity|]. split.
  { rewrite (map_ext _ (fun i => firstn 10 (skipn (10 * i) l))) by (intros; apply paginate_page).
    apply concat_pages. Z.div_mod_to_equations. lia. }
  split.
  { intros p Hp. rewrite paginate_nat by lia. rewrite length_firstn, length_skipn.
    Z.div_mod_to_equations. lia. }
  split.
  { intros p Hp. rewrite paginate_nat by lia. rewrite length_firstn. lia. }
  split.
  { intros p Hp. rewrite paginate_nat by (Z.div_mod_to_equations; lia).
    rewrite skipn_all2; [reflexivity|]. Z.div_mod_to_equations. lia. }
  intros p Hp. unfold prev_page, next_page. lia.
Qed.

(** Typing in the search box changes only [searchTerm]: when the filtered
    list then fits on one page while [currentPage] is 2 or more, the page
    renders the table with no rows and without the pagination controls, so
    the remaining matches cannot be reached without clearing the search. *)
Theorem search_on_later_page_empty_table (term : string) (currentPage : Z)
    (sorted filtered : list ParseResult) :
  filter_statements term sorted = Some filtered ->
  (1 <= length filtered <= 10)%nat -> (2 <= currentPage)%Z ->
  statements_table false None term currentPage sorted = Table [] false.
Proof.
  intros Hf Hl Hp. unfold statements_table. rewrite Hf.
  pose proof (proj1 (pagination_pages filtered)) as HT. cbv zeta in HT.
  assert (HT1 : totalPages (length filtered) = 1%Z) by (rewrite HT; Z.div_mod_to_equations; lia).
  destruct filtered as [|x r] eqn:E; [simpl in Hl; lia|]. rewrite <- E in *.
  rewrite HT1. simpl.
  f_equal. pose proof (proj1 (proj2 (proj2 (proj2 (proj2 (pagination_pages filtered)))))) as Hpast.
  cbv zeta in Hpast. apply Hpast. lia.
Qed.

Lemma search_on_later_page_empty_table_witness :
  filter_statements "hdfc" (MOCK_STATEMENTS sample_runtime 0)
    = Some [nth 1 (MOCK_STATEMENTS sample_runtime 0)
              (mkParseResult "" JUndef JUndef JUndef JUndef JUndef JUndef JUndef JUndef JUndef)] /\
  statements_table false None "hdfc" 2 (MOCK_STATEMENTS sample_runtime 0) = Table [] false.
Proof.
  split; [vm_compute; reflexivity|].
  apply (search_on_later_page_empty_table "hdfc" 2 (MOCK_STATEMENTS sample_runtime 0)
           [nth 1 (MOCK_STATEMENTS sample_runtime 0)
              (mkParseResult "" JUndef JUndef JUndef JUndef JUndef JUndef JUndef JUndef JUndef)]);
    [vm_compute; reflexivity | simpl; lia | lia].
Defined.

(** ** Refreshing the saved statements *)

Lemma getAll_resolved (rt : runtime) (fr : bool) (now : Z) (resp : http_response) (s : store) :
  exists s1 req loc, getAllSavedStatements rt fr now resp s = (s1, req, Resolved loc).
Proof.
  unfold getAllSavedStatements.
  destruct (cache_data s); [destruct (negb fr && (now - cache_ts s <? CACHE_TTL)%Z); [eauto|]|];
    (destruct resp; [cbv zeta; destruct (alloc _ _)|]; eauto).
Qed.

Lemma getAll_failed_request (rt : runtime) (fr : bool) (now : Z) (m : string) (s : store) :
  let '(s1, req, p) := getAllSavedStatements rt fr now (HttpErr m) s in
  req = true -> s1 = set_cache s (Some MOCK_LOC) now /\ p = Resolved MOCK_LOC.
Proof.
  unfold getAllSavedStatements. destruct (cache_data s); [|intros; split; reflexivity].
  destruct (negb fr && (now - cache_ts s <? CACHE_TTL)%Z); [discriminate|].
  intros; split; reflexivity.
Qed.

(** [fetchStatements] of the saved statements page never sets its error
    (its [catch] is not reached, since [getAllSavedStatements] never
    rejects) and always ends with loading and refreshing cleared, so the page
    then shows neither its spinner nor its error block.  A forced refresh
    always requests; a failed request shows the [MOCK_STATEMENTS] array as it
    stands in the store; the new-data indicator is raised only when a
    non-empty list grows. *)
Theorem fetchStatements_settles (rt : runtime) (fr : bool) (now : Z) (resp : http_response)
    (s : store) (lp : list_page) :
  let '(s1, req, lp1) := fetchStatements rt fr now resp s lp in
  lp_error lp1 = None /\ lp_isLoading lp1 = false /\ lp_isRefreshing lp1 = false /\
  (forall term p sorted,
     statements_table (lp_isLoading lp1) (lp_error lp1) term p sorted <> TableError /\
     statements_table (lp_isLoading lp1) (lp_error lp1) term p sorted <> TableLoading) /\
  (fr = true -> req = true) /\
  (forall m, resp = HttpErr m -> req = true -> lp_statements lp1 = read s MOCK_LOC) /\
  (lp_newDataIndicator lp1 = true <->
     lp_newDataIndicator lp = true \/
     (0 < length (lp_statements lp) < length (lp_statements lp1))%nat).
Proof.
  unfold fetchStatements.
  set (s0 := if fr then clearStatementsCache s else s).
  destruct (getAll_resolved rt fr now resp s0) as (s1 & req & loc & Hg).
  assert (Hreq : fr = true -> req = true).
  { intros Hfr. subst fr. unfold s0, getAllSavedStatements, clearStatementsCache in Hg.
    simpl in Hg. destruct resp; congruence. }
  assert (Hmock : forall m, resp = HttpErr m -> req = true -> read s1 loc = read s MOCK_LOC).
  { intros m Hm Hr. subst resp. pose proof (getAll_failed_request rt fr now m s0) as H.
    rewrite Hg in H. destruct (H Hr) as [-> Hl]. inversion Hl; subst loc.
    rewrite read_set_cache. unfold s0. destruct fr; reflexivity. }
  rewrite Hg. cbn [lp_error lp_isLoading lp_isRefreshing lp_statements lp_newDataIndicator].
  split; [reflexivity|]. split; [reflexivity|]. split; [reflexivity|].
  split.
  { intros term p sorted. unfold statements_table. cbv iota.
    destruct (filter_statements term sorted) as [f|]; [|split; discriminate].
    destruct f; split; discriminate. }
  split; [exact Hreq|]. split; [exact Hmock|].
  destruct ((0 <? length (lp_statements lp))%nat && (length (lp_statements lp) <? length (read s1 loc))%nat)
    eqn:E.
  - apply andb_true_iff in E as [E1 E2]. apply Nat.ltb_lt in E1, E2.
    split; [intros _; right; lia | reflexivity].
  - split; [intros H; now left|]. intros [H|H]; [exact H|].
    apply andb_false_iff in E as [E|E]; apply Nat.ltb_ge in E; lia.
Qed.

(** The cache can hold the [MOCK_STATEMENTS] array itself: after a failed
    list request, [addStatementToCache] writes into that array, and the write
    outlives [clearStatementsCache].  A later lookup of the added statement,
    with the server down, returns it as if it were sample data, and the next
    failed list request shows it among the samples. *)
Theorem mock_array_aliased_by_cache (rt : runtime) (load t0 t1 t2 : Z) (m1 m2 m3 : string)
    (st : ParseResult) :
  let s1 := fst (fst (getAllSavedStatements rt false t0 (HttpErr m1) (init_store rt load))) in
  let s2 := clearStatementsCache (addStatementToCache st t1 s1) in
  read s2 MOCK_LOC = upsert st (MOCK_STATEMENTS rt load) /\
  getSavedStatementById rt (job_id st) t2 (HttpErr m2) s2 = (s2, true, Resolved (Some st)) /\
  (let '(s3, _, p) := getAllSavedStatements rt false t2 (HttpErr m3) s2 in
   p = Resolved MOCK_LOC /\ In st (read s3 MOCK_LOC)).
Proof.
  cbv zeta.
  assert (Hr : read (clearStatementsCache (addStatementToCache st t1
                 (fst (fst (getAllSavedStatements rt false t0 (HttpErr m1) (init_store rt load))))))
                 MOCK_LOC = upsert st (MOCK_STATEMENTS rt load)) by reflexivity.
  split; [exact Hr|].
  split.
  - unfold getSavedStatementById at 1. cbn [clearStatementsCache set_cache cache_data]. cbv iota.
    rewrite Hr, find_upsert_self. reflexivity.
  - cbn [getAllSavedStatements clearStatementsCache set_cache cache_data]. cbv iota.
    split; [reflexivity|]. rewrite read_set_cache, Hr.
    apply find_some with (f := by_job_id (job_id st)). apply find_upsert_self.
Qed.

(** ** Uploading and saving *)

Lemma saveResult_success (node_env random_id nrm : string) (r : axios_result) :
  sr_success (saveResultToDatabase node_env random_id nrm r) = true <->
  node_env = "development" \/ exists data, r = AxOk data /\ data <> JNull /\ data <> JUndef.
Proof.
  unfold saveResultToDatabase.
  destruct (String.eqb_spec node_env "development") as [Hd|Hd].
  - destruct r as [data|e]; [destruct data|]; simpl; split; auto.
  - destruct r as [data|e]; [destruct data|]; simpl; split; intros H;
      try (right; eexists; split; [reflexivity | split; discriminate]);
      try reflexivity; try discriminate H;
      destruct H as [H|[d [Hr [H1 H2]]]]; try contradiction; inversion Hr; subst; contradiction.
Qed.

Lemma saveResult_simulated (random_id nrm : string) (r : axios_result) :
  (exists e, r = AxFail e) \/ r = AxOk JNull \/ r = AxOk JUndef ->
  sr_result_id (saveResultToDatabase "development" random_id nrm r) = JStr ("sim_" ++ random_id).
Proof. intros [[e ->]|[->| ->]]; reflexivity. Qed.

(** [handleSaveToDatabase] on a page showing a result: in development every
    outcome of the request is reported as saved, a failed one with a
    simulated [sim_] id; otherwise the status is success exactly when the
    request returned a body, and error otherwise, with the result and the
    previous result id kept.  Whenever the request returns a body, the
    result id becomes its [result_id], or [null] when that is falsy. *)
Theorem handleSaveToDatabase_status (node_env random_id nrm : string) (r : axios_result)
    (st : home_state) :
  truthy (h_result st) = true ->
  let st' := handleSaveToDatabase node_env random_id nrm r st in
  (forall data, r = AxOk data -> data <> JNull -> data <> JUndef ->
     h_resultId st' = js_or (get data "result_id") JNull) /\
  h_result st' = h_result st /\
  (node_env = "development" ->
     h_saveStatus st' = SaveSuccess /\
     ((exists e, r = AxFail e) \/ r = AxOk JNull \/ r = AxOk JUndef ->
        h_resultId st' = JStr ("sim_" ++ random_id))) /\
  (node_env <> "development" ->
     (h_saveStatus st' = SaveSuccess <-> exists data, r = AxOk data /\ data <> JNull /\ data <> JUndef) /\
     (h_saveStatus st' = SaveError <-> ~ exists data, r = AxOk data /\ data <> JNull /\ data <> JUndef) /\
     (h_saveStatus st' = SaveError -> h_resultId st' = h_resultId st)).
Proof.
  intros Ht. cbv zeta.
  assert (Hid : forall data, r = AxOk data -> data <> JNull -> data <> JUndef ->
            h_resultId (handleSaveToDatabase node_env random_id nrm r st)
            = js_or (get data "result_id") JNull).
  { intros data -> H1 H2. unfold handleSaveToDatabase. rewrite Ht. simpl negb. cbv iota.
    unfold saveResultToDatabase. destruct data; try contradiction; reflexivity. }
  split; [exact Hid|]. clear Hid.
  unfold handleSaveToDatabase. rewrite Ht. simpl negb. cbv iota.
  pose proof (saveResult_success node_env random_id nrm r) as Hs.
  destruct (sr_success (saveResultToDatabase node_env random_id nrm r)) eqn:E.
  - split; [reflexivity|]. split.
    + intros Hd. split; [reflexivity|]. intros Hf. subst node_env. simpl.
      now rewrite saveResult_simulated.
    + intros Hd. assert (Hx : exists data, r = AxOk data /\ data <> JNull /\ data <> JUndef)
        by (destruct (proj1 Hs eq_refl); [contradiction | assumption]).
      split; [split; [intros _; exact Hx | reflexivity]|].
      split; [split; [discriminate | intros H; contradiction]|discriminate].
  - split; [reflexivity|]. split.
    + intros Hd. exfalso. assert (H : false = true) by (apply Hs; now left). discriminate.
    + intros Hd. split; [split; [discriminate | intros Hx; assert (H : false = true) by (apply Hs; now right); discriminate]|].
      split; [split; [intros _ Hx; assert (H : false = true) by (apply Hs; now right); discriminate | reflexivity]|].
      reflexivity.
Qed.

Lemma handleSaveToDatabase_status_witness :
  truthy (h_result (mkHome (JObj [("job_id", JStr "j")]) false JNull SaveIdle JNull)) = true /\
  h_saveStatus (handleSaveToDatabase "production" "abc" "TypeError" (AxOk JNull)
                  (mkHome (JObj [("job_id", JStr "j")]) false JNull SaveIdle JNull)) = SaveError.
Proof.
  split; [reflexivity|].
  destruct (handleSaveToDatabase_status "production" "abc" "TypeError" (AxOk JNull)
              (mkHome (JObj [("job_id", JStr "j")]) false JNull SaveIdle JNull) eq_refl)
    as (_ & _ & _ & Hprod).
  destruct (Hprod ltac:(intros Heq; inversion Heq)) as (_ & [_ Herr] & _).
  apply Herr. intros [d [Hd [H1 _]]]. inversion Hd. subst. contradiction.
Defined.

Lemma js_String_objects (rt : runtime) (fs : list (list (string * jval))) :
  js_String rt (JArr (map JObj fs)) = String.concat "," (map (fun _ => "[object Object]") fs).
Proof.
  assert (H : forall l : list (list (string * jval)),
    (fix elems (l : list jval) : list string :=
       match l with
       | [] => []
       | x :: l' => (match x with JUndef | JNull => "" | _ => js_String rt x end) :: elems l'
       end) (map JObj l) = map (fun _ => "[object Object]") l).
  { induction l as [|f l IH]; simpl; [reflexivity|]. f_equal. exact IH. }
  simpl. rewrite H. reflexivity.
Qed.

(** When the upload request fails with a [detail] that is an array of
    objects (the shape of a validation error body), the message reported to
    the user is ["Upload failed: [object Object],..."]: one
    ["[object Object]"] per entry, whatever the entries say. *)
Theorem upload_failed_detail_objects (rt : runtime) (nrm : string) (e : axios_error)
    (resp : nat -> status_response) (fs : list (list (string * jval))) (files : list File) :
  ax_detail e = JArr (map JObj fs) ->
  let '(tr, up) := uploadStatement rt nrm (AxFail e) resp in
  tr = [] /\
  up = UploadFailed ("Upload failed: " ++ String.concat "," (map (fun _ => "[object Object]") fs)) /\
  forall f, hd_error files = Some f -> valid_upload f ->
  onDrop up files =
    [OnUploadStart; UploadRequest f;
     OnUploadError ("Upload failed: " ++ String.concat "," (map (fun _ => "[object Object]") fs))].
Proof.
  intros Hd. unfold uploadStatement. rewrite Hd.
  replace (js_or (JArr (map JObj fs)) (JStr (ax_message e))) with (JArr (map JObj fs)) by reflexivity.
  rewrite js_String_objects. split; [reflexivity|]. split; [reflexivity|].
  intros f Hf [Ht Hs]. destruct files as [|f' files]; [discriminate|]. inversion Hf; subst f'.
  unfold onDrop. rewrite Ht. simpl negb. cbv iota.
  destruct (Z.ltb_spec (10 * 1024 * 1024) (file_size f)) as [Hl|_]; [lia|]. reflexivity.
Qed.

Lemma upload_failed_detail_objects_witness :
  ax_detail (mkAxiosError (JObj [("data", JObj [("detail",
               JArr [JObj [("msg", JStr "field required")]])])]) "Request failed") =
    JArr (map JObj [[("msg", JStr "field required")]]) /\
  let '(tr, up) := uploadStatement sample_runtime "TypeError"
      (AxFail (mkAxiosError (JObj [("data", JObj [("detail",
               JArr [JObj [("msg", JStr "field required")]])])]) "Request failed"))
      (fun _ => StatusErr (JsError JUndef)) in
  tr = [] /\
  up = UploadFailed ("Upload failed: " ++ String.concat "," (map (fun _ => "[object Object]")
                      [[("msg", JStr "field required")]])) /\
  forall f, hd_error [mkFile "s.pdf" "application/pdf" 1000] = Some f -> valid_upload f ->
  onDrop up [mkFile "s.pdf" "application/pdf" 1000] =
    [OnUploadStart; UploadRequest f;
     OnUploadError ("Upload failed: " ++ String.concat "," (map (fun _ => "[object Object]")
                      [[("msg", JStr "field required")]]))].
Proof.
  split; [reflexivity|].
  apply upload_failed_detail_objects. reflexivity.
Defined.

Lemma poll_loop_all_throw (resp : nat -> status_response) (M : Z) (e : js_error) :
  (forall j, poll_body (resp j) = BThrow e) ->
  forall fuel a d k, (0 <= a < M)%Z -> (Z.to_nat (M - a) <= fuel)%nat ->
  let '(tr, o) := poll_loop resp M fuel a d k in
  o = PollThrown e /\ count_checks tr = Z.to_nat (M - a) /\
  (forall x, In (PollSleep x) tr -> x = d).
Proof.
  intros Hb fuel. induction fuel as [|fuel IH]; intros a d k Ha Hf; [lia|].
  simpl. destruct (Z.ltb_spec a M) as [_|]; [|lia]. rewrite Hb.
  destruct (Z.eqb_spec a (M - 1)) as [Hl|Hl].
  - split; [reflexivity|]. split; [simpl; lia|]. intros x [H|[]]; discriminate.
  - specialize (IH (a + 1)%Z d (S k) ltac:(lia) ltac:(lia)).
    destruct (poll_loop resp M fuel (a + 1) d (S k)) as [tr o].
    destruct IH as (Ho & Hc & Hs). split; [exact Ho|]. split; [simpl; lia|].
    intros x [H|[H|H]]; [discriminate | now inversion H | now apply Hs].
Qed.

(** A job the server reports as [failed] is not given up on: [uploadStatement]
    checks its status 30 times, one second apart with no backoff (the
    failure is caught by the loop's own [catch]), before rejecting with the
    job's error, or "Parsing failed" when it has none. *)
Theorem upload_failed_job_polls_to_the_end (rt : runtime) (nrm : string) (data r0 : jval)
    (resp : nat -> status_response) :
  data <> JUndef -> data <> JNull -> truthy (get data "result") = false ->
  (forall k, resp k = StatusOk (mkJobStatus "failed" r0)) ->
  let '(tr, up) := uploadStatement rt nrm (AxOk data) resp in
  count_checks tr = 30%nat /\ (forall x, In (PollSleep x) tr -> x = 1000) /\
  up = UploadFailed (error_message rt (JsError (js_or (get r0 "error") (JStr "Parsing failed")))).
Proof.
  intros Hu Hn Hr Hresp.
  assert (Hb : forall j, poll_body (resp j) =
                 BThrow (JsError (js_or (get r0 "error") (JStr "Parsing failed")))).
  { intros j. rewrite Hresp. reflexivity. }
  pose proof (poll_loop_all_throw resp 30 _ Hb (S (Z.to_nat 30)) 0 1000 0 ltac:(lia) ltac:(simpl; lia))
    as H.
  unfold uploadStatement, pollJobStatus.
  assert (Hd : match data with
               | JUndef | JNull => ([], UploadFailed nrm)
               | _ => if truthy (get data "result") then ([], UploadOk (get data "result"))
                      else let '(tr, o) := poll_loop resp 30 (S (Z.to_nat 30)) 0 1000 0 in
                           (tr, match o with
                                | PollReturned r => UploadOk r
                                | PollThrown e => UploadFailed (error_message rt e)
                                | PollOutOfFuel => UploadFailed ""
                                end)
               end =
               let '(tr, o) := poll_loop resp 30 (S (Z.to_nat 30)) 0 1000 0 in
                 (tr, match o with
                      | PollReturned r => UploadOk r
                      | PollThrown e => UploadFailed (error_message rt e)
                      | PollOutOfFuel => UploadFailed ""
                      end)).
  { destruct data; try contradiction; rewrite Hr; reflexivity. }
  rewrite Hd. destruct (poll_loop resp 30 (S (Z.to_nat 30)) 0 1000 0) as [tr o].
  destruct H as (-> & Hc & Hs). split; [exact Hc|]. split; [exact Hs | reflexivity].
Qed.

Lemma upload_failed_job_polls_to_the_end_witness :
  JObj [("job_id", JStr "j1")] <> JUndef /\ JObj [("job_id", JStr "j1")] <> JNull /\
  truthy (get (JObj [("job_id", JStr "j1")]) "result") = false /\
  let '(tr, up) := uploadStatement sample_runtime "TypeError" (AxOk (JObj [("job_id", JStr "j1")]))
                     (fun _ => StatusOk (mkJobStatus "failed" (JObj [("error", JStr "Bad PDF")]))) in
  count_checks tr = 30%nat /\ (forall x, In (PollSleep x) tr -> x = 1000) /\
  up = UploadFailed (error_message sample_runtime
                       (JsError (js_or (get (JObj [("error", JStr "Bad PDF")]) "error")
                                       (JStr "Parsing failed")))).
Proof.
  split; [discriminate|]. split; [discriminate|]. split; [reflexivity|].
  apply upload_failed_job_polls_to_the_end; [discriminate | discriminate | reflexivity | reflexivity].
Defined.

Lemma poll_body_return_truthy (x : status_response) (r : jval) :
  poll_body x = BReturn r -> truthy r = true.
Proof.
  unfold poll_body. destruct x as [st|e]; [|discriminate].
  destruct (String.eqb (jsr_status st) "completed" && truthy (jsr_result st)) eqn:E.
  - intros H. inversion H; subst r. apply andb_true_iff in E as [_ E]. exact E.
  - destruct (String.eqb (jsr_status st) "failed"); discriminate.
Qed.

Lemma uploadStatement_ok_truthy (rt : runtime) (nrm : string) (post : axios_result)
    (resp : nat -> status_response) (r : jval) :
  snd (uploadStatement rt nrm post resp) = UploadOk r -> truthy r = true.
Proof.
  pose proof (poll_loop_spec resp 30 (S (Z.to_nat 30)) 0 1000 5000 0
                ltac:(lia) eq_refl ltac:(unfold Qle; simpl; lia) ltac:(unfold Qle; simpl; lia)
                ltac:(simpl; lia)) as Hspec.
  assert (Hpoll : forall tr o, poll_loop resp 30 (S (Z.to_nat 30)) 0 1000 0 = (tr, o) ->
            match o with
            | PollReturned r => UploadOk r
            | PollThrown e => UploadFailed (error_message rt e)
            | PollOutOfFuel => UploadFailed ""
            end = UploadOk r -> truthy r = true).
  { intros tr o Ho. rewrite Ho in Hspec. destruct Hspec as (_ & _ & _ & Hr & _).
    destruct o as [r'|e|]; intros H; inversion H; subst r'.
    destruct (Hr r eq_refl) as [j [_ Hj]]. exact (poll_body_return_truthy _ _ Hj). }
  unfold uploadStatement, pollJobStatus. destruct post as [data|e]; [|discriminate].
  destruct data; try discriminate;
    (destruct (truthy (get _ "result")) eqn:Ht;
     [intros H; inversion H; subst r; exact Ht
     | destruct (poll_loop resp 30 (S (Z.to_nat 30)) 0 1000 0) as [tr o] eqn:Ho;
       exact (Hpoll tr o eq_refl)]).
Qed.

(** The upload page after a drop: whatever the drop and however the upload
    ends, the spinner is off and exactly one of the result and the error is
    shown; the upload zone is back exactly when no result is shown. *)
Theorem home_after_drop (rt : runtime) (nrm : string) (post : axios_result)
    (resp : nat -> status_response) (files : list File) (st : page_state) :
  let st' := home_after st (onDrop (snd (uploadStatement rt nrm post resp)) files) in
  p_loading st' = false /\
  (truthy (p_result st') = true <-> truthy (p_error st') = false) /\
  hv_upload_zone (home_render st') = negb (hv_results (home_render st')) /\
  hv_error_box (home_render st') = negb (hv_results (home_render st')).
Proof.
  pose proof (uploadStatement_ok_truthy rt nrm post resp) as Hok.
  assert (Herr : forall m, m <> "" ->
            let st' := {| p_result := JNull; p_loading := false; p_error := JStr m |} in
            p_loading st' = false /\
            (truthy (p_result st') = true <-> truthy (p_error st') = false) /\
            hv_upload_zone (home_render st') = negb (hv_results (home_render st')) /\
            hv_error_box (home_render st') = negb (hv_results (home_render st'))).
  { intros m Hm. cbv zeta. unfold home_render. simpl. apply String.eqb_neq in Hm. rewrite Hm.
    split; [reflexivity|]. split; [split; discriminate|]. split; reflexivity. }
  cbv zeta. unfold onDrop.
  destruct files as [|f files]; [apply Herr; discriminate|].
  destruct (negb (String.eqb (file_type f) "application/pdf")); [apply Herr; discriminate|].
  destruct (10 * 1024 * 1024 <? file_size f)%Z; [apply Herr; discriminate|].
  destruct (snd (uploadStatement rt nrm post resp)) as [r|m].
  - specialize (Hok r eq_refl). unfold home_after, home_render. simpl. rewrite Hok.
    split; [reflexivity|]. split; [split; reflexivity|]. split; reflexivity.
  - apply Herr. destruct (String.eqb_spec m "") as [_|Hm]; [discriminate | exact Hm].
Qed.
